(** * homesadmin: price utilities and the order list, embedded and verified

    A shallow embedding of [src/utils/priceUtils.ts], of the handlers and
    helpers of [src/app/orders/page.tsx] and of the delete handler and the
    price cell of [src/app/products/page.tsx].

    - A JavaScript [number] is an IEEE 754 binary64 value: Rocq's primitive
      [float], whose operations are specified against [SpecFloat].
    - A JavaScript string is its sequence of UTF-16 code units, [list N].
    - A plain object used as a dictionary is a [gmap].
    - What the engine supplies from locale, Unicode or calendar tables
      ([toLowerCase], [normalize], [localeCompare], [Date]), and the order
      in which it enumerates properties, is an interface, the class
      [Host]. *)

From Stdlib Require Import ZArith NArith QArith Qround List String Ascii Floats Lia Bool.
From Stdlib Require Import Permutation Sorted Qpower DecimalPos DecimalN.
From stdpp Require Import gmap list.
Import ListNotations.

Set Default Proof Using "Type".

(** ** Strings *)

Abbreviation jsstring := (list N).

(** The code units of an ASCII literal. *)
Definition js (s : string) : list N :=
  List.map N_of_ascii (list_ascii_of_string s).
Arguments js s%_string.

Definition isDigit (c : N) : bool := ((48 <=? c) && (c <=? 57))%N.
Definition isLowerAZ (c : N) : bool := ((97 <=? c) && (c <=? 122))%N.
Definition isHyphen (c : N) : bool := (c =? 45)%N.

(** [WhiteSpace] and [LineTerminator] of ECMA-262: what [trim] removes and
    what [\s] matches. *)
Definition isWhiteSpace (c : N) : bool :=
  ((9 <=? c) && (c <=? 13) || (c =? 32) || (c =? 160) || (c =? 5760)
   || (8192 <=? c) && (c <=? 8202) || (c =? 8232) || (c =? 8233)
   || (c =? 8239) || (c =? 8287) || (c =? 12288) || (c =? 65279))%N.

Fixpoint takeWhile {A} (p : A -> bool) (l : list A) : list A :=
  match l with
  | x :: l' => if p x then x :: takeWhile p l' else []
  | [] => []
  end.

Fixpoint dropWhile {A} (p : A -> bool) (l : list A) : list A :=
  match l with
  | x :: l' => if p x then dropWhile p l' else l
  | [] => []
  end.

(** What is left of [l] without its longest suffix in [p]. *)
Fixpoint dropWhileEnd {A} (p : A -> bool) (l : list A) : list A :=
  match l with
  | [] => []
  | x :: l' =>
      match dropWhileEnd p l' with
      | [] => if p x then [] else [x]
      | r => x :: r
      end
  end.

Definition trimStart (s : list N) : list N := dropWhile isWhiteSpace s.
Definition trimEnd (s : list N) : list N := dropWhileEnd isWhiteSpace s.
Definition trim (s : list N) : list N := trimEnd (trimStart s).

Fixpoint startsWith (p s : list N) : bool :=
  match p, s with
  | [], _ => true
  | a :: p', b :: s' => (a =? b)%N && startsWith p' s'
  | _ :: _, [] => false
  end.

(** [s.includes(t)] *)
Fixpoint includes (s t : list N) : bool :=
  startsWith t s || match s with [] => false | _ :: s' => includes s' t end.

(** [s.split(sep)] for a separator of one code unit: never an empty array. *)
Fixpoint split (sep : N) (s : list N) : list (list N) :=
  match s with
  | [] => [[]]
  | c :: s' =>
      if (c =? sep)%N then [] :: split sep s'
      else match split sep s' with
           | w :: ws => (c :: w) :: ws
           | [] => [[c]]
           end
  end.

(** [a.join(sep)] on an array of strings. *)
Fixpoint join (sep : list N) (a : list (list N)) : list N :=
  match a with
  | [] => []
  | [w] => w
  | w :: ws => w ++ sep ++ join sep ws
  end.

(** ** Numbers *)

(** [ToBoolean] of a number: every number but [0], [-0] and [NaN]. *)
Definition truthyNumber (x : float) : bool := negb (is_zero x || is_nan x).

(** [Math.round]: the closest integer, a tie going to [+∞]; [-0] for
    [-0.5 <= x < 0], the argument itself when it is integral or not finite. *)
Definition Math_round (x : float) : float :=
  match Prim2SF x with
  | S754_finite s m e =>
      if (0 <=? e)%Z then x
      else
        let q := ((2 * (if s then Z.neg m else Z.pos m) + 2 ^ (- e)) / 2 ^ (- e + 1))%Z in
        if (q =? 0)%Z then (if s then neg_zero else zero)
        else SF2Prim (binary_normalize prec emax q 0 false)
  | _ => x
  end.

(** The number nearest to [±m * 10^e] (ties to even): the value of a
    decimal literal. *)
Definition decimalValue (neg : bool) (m : Z) (e : Z) : float :=
  match m with
  | Zpos p =>
      if (0 <=? e)%Z
      then SF2Prim (binary_normalize prec emax (if neg then Z.neg (p * Z.to_pos (10 ^ e)) else Z.pos (p * Z.to_pos (10 ^ e))) 0 false)
      else SF2Prim (SFdiv prec emax (S754_finite neg p 0) (S754_finite false (Z.to_pos (10 ^ (- e))) 0))
  | _ => if neg then neg_zero else zero
  end.

Definition digitsValue (ds : list N) : Z :=
  fold_left (fun acc c => (10 * acc + Z.of_N (c - 48))%Z) ds 0%Z.

(** The [ExponentPart] at the head of [s], [0] when there is none. *)
Definition exponentPart (s : list N) : Z :=
  match s with
  | c :: r =>
      if ((c =? 101) || (c =? 69))%N then
        match r with
        | 43%N :: r' => digitsValue (takeWhile isDigit r')
        | 45%N :: r' => (- digitsValue (takeWhile isDigit r'))%Z
        | _ => digitsValue (takeWhile isDigit r)
        end
      else 0%Z
  | [] => 0%Z
  end.

(** The longest prefix of [s] that is a [StrUnsignedDecimalLiteral], as its
    value; [None] when no prefix is one. *)
Definition unsignedDecimalLiteral (neg : bool) (s : list N) : option float :=
  if startsWith (js "Infinity") s then Some (if neg then neg_infinity else infinity)
  else
    let ip := takeWhile isDigit s in
    let r := dropWhile isDigit s in
    match r with
    | 46%N :: r' =>
        let fp := takeWhile isDigit r' in
        match ip, fp with
        | [], [] => None
        | _, _ =>
            Some (decimalValue neg (digitsValue (ip ++ fp))
                    (exponentPart (dropWhile isDigit r') - Z.of_nat (length fp)))
        end
    | _ =>
        match ip with
        | [] => None
        | _ => Some (decimalValue neg (digitsValue ip) (exponentPart r))
        end
    end.

(** [parseFloat] on a string: leading white space is skipped, the longest
    prefix that is a [StrDecimalLiteral] is read, [NaN] when there is none. *)
Definition parseFloatString (s : list N) : float :=
  let r :=
    match trimStart s with
    | 43%N :: t => unsignedDecimalLiteral false t
    | 45%N :: t => unsignedDecimalLiteral true t
    | t => unsignedDecimalLiteral false t
    end in
  match r with Some x => x | None => nan end.

Fixpoint uintCodes (d : Decimal.uint) : list N :=
  match d with
  | Decimal.Nil => []
  | Decimal.D0 d => 48%N :: uintCodes d
  | Decimal.D1 d => 49%N :: uintCodes d
  | Decimal.D2 d => 50%N :: uintCodes d
  | Decimal.D3 d => 51%N :: uintCodes d
  | Decimal.D4 d => 52%N :: uintCodes d
  | Decimal.D5 d => 53%N :: uintCodes d
  | Decimal.D6 d => 54%N :: uintCodes d
  | Decimal.D7 d => 55%N :: uintCodes d
  | Decimal.D8 d => 56%N :: uintCodes d
  | Decimal.D9 d => 57%N :: uintCodes d
  end.

(** The decimal digits of a natural number. *)
Definition decimalString (n : Z) : list N := uintCodes (N.to_uint (Z.to_N n)).

(** The least [n] from [n0] on with [v < 10^n]. *)
Fixpoint decimalExponent (fuel : nat) (v : Q) (n : Z) : Z :=
  match fuel with
  | O => n
  | S fuel' =>
      match (v ?= (10 # 1) ^ n)%Q with
      | Lt => n
      | _ => decimalExponent fuel' v (n + 1)%Z
      end
  end.

(** The [s], [k] and [n] of [Number::toString]: with [k] as small as can be,
    the [k]-digit [s] whose decimal [s * 10^(n-k)] reads back as [x]; of two
    such the closer to [x] (the even one on a tie). [v] is the exact value
    of [x > 0] and [10^(n-1) <= v < 10^n]. *)
Fixpoint shortestDecimal (fuel : nat) (x : float) (v : Q) (n k : Z) : Z * Z * Z :=
  match fuel with
  | O => (0, k, n)%Z
  | S fuel' =>
      let scaled := (v * (10 # 1) ^ (k - n))%Q in
      let lo := Qfloor scaled in
      let hi := (lo + 1)%Z in
      let '(his, hin) := if (hi =? 10 ^ k)%Z then (10 ^ (k - 1), n + 1)%Z else (hi, n) in
      let lo_ok := (decimalValue false lo (n - k) =? x)%float in
      let hi_ok := (decimalValue false his (hin - k) =? x)%float in
      let pick_hi :=
        match (scaled - inject_Z lo ?= 1 # 2)%Q with
        | Lt => false
        | Gt => true
        | Eq => Z.odd lo
        end in
      if lo_ok && hi_ok then (if pick_hi then (his, k, hin) else (lo, k, n))
      else if lo_ok then (lo, k, n)
      else if hi_ok then (his, k, hin)
      else shortestDecimal fuel' x v n (k + 1)%Z
  end.

(** [Number::toString] in radix 10, the [String(x)] of a number. *)
Definition Number_toString (x : float) : list N :=
  match Prim2SF x with
  | S754_nan => js "NaN"
  | S754_zero _ => js "0"
  | S754_infinity sg => (if sg then js "-" else []) ++ js "Infinity"
  | S754_finite sg m e =>
      let v := (inject_Z (Z.pos m) * (2 # 1) ^ e)%Q in
      let n0 := decimalExponent 4 v ((Z.log2 (Z.pos m) + e) * 30103 / 100000 - 1)%Z in
      let '(s, k, n) := shortestDecimal 17 (abs x) v n0 1%Z in
      let ds := decimalString s in
      (if sg then js "-" else []) ++
      (if ((k <=? n) && (n <=? 21))%Z then ds ++ List.repeat 48%N (Z.to_nat (n - k))
       else if ((0 <? n) && (n <=? 21))%Z then
         take (Z.to_nat n) ds ++ js "." ++ drop (Z.to_nat n) ds
       else if ((-6 <? n) && (n <=? 0))%Z then
         js "0." ++ List.repeat 48%N (Z.to_nat (- n)) ++ ds
       else
         let ex := (n - 1)%Z in
         let es := (if (ex <? 0)%Z then js "-" else js "+") ++ decimalString (Z.abs ex) in
         if (k =? 1)%Z then ds ++ js "e" ++ es
         else take 1 ds ++ js "." ++ drop 1 ds ++ js "e" ++ es)
  end.

(** [x.toFixed(f)]: [Number::toString] for what is not finite or reaches
    [10^21]; else the integer [n] nearest to [|x| * 10^f], the larger of two
    that are as near, written in decimal with a point before its last [f]
    digits and zeros in front when they are too few. A [-] goes first when
    [x < 0], which [-0] is not. *)
Definition toFixed (x : float) (f : nat) : list N :=
  let fixed (v : Q) : list N :=
    let n := Qfloor (v * (10 # 1) ^ Z.of_nat f + (1 # 2))%Q in
    let m := decimalString n in
    if (f =? 0)%nat then m
    else
      let m := if (length m <=? f)%nat then List.repeat 48%N (f + 1 - length m) ++ m else m in
      take (length m - f) m ++ js "." ++ drop (length m - f) m in
  match Prim2SF x with
  | S754_finite sg m e =>
      let v := (inject_Z (Z.pos m) * (2 # 1) ^ e)%Q in
      (if sg then js "-" else [])
      ++ (if Qle_bool ((10 # 1) ^ 21) v then Number_toString (abs x) else fixed v)
  | S754_zero _ => fixed 0%Q
  | _ => Number_toString x
  end.

(** [Math.min(...l)] and [Math.max(...l)]: [NaN] as soon as one argument is;
    [-0] counts as less than [+0]; [+∞] and [-∞] for no argument. *)
Fixpoint Math_min_from (lowest : float) (l : list float) : float :=
  match l with
  | [] => lowest
  | number :: l' =>
      if is_nan number then nan
      else
        Math_min_from
          (if Leibniz.eqb number neg_zero && Leibniz.eqb lowest zero then neg_zero
           else if (number <? lowest)%float then number else lowest) l'
  end.

Definition Math_min (l : list float) : float := Math_min_from infinity l.

Fixpoint Math_max_from (highest : float) (l : list float) : float :=
  match l with
  | [] => highest
  | number :: l' =>
      if is_nan number then nan
      else
        Math_max_from
          (if Leibniz.eqb number zero && Leibniz.eqb highest neg_zero then zero
           else if (highest <? number)%float then number else highest) l'
  end.

Definition Math_max (l : list float) : float := Math_max_from neg_infinity l.

(** What is left of an [ExponentPart] or of nothing: [r] is empty or
    [[eE][+-]?[0-9]+]. *)
Definition isExponentPart (r : list N) : bool :=
  match r with
  | [] => true
  | c :: r' =>
      ((c =? 101) || (c =? 69))%N
      && let ds := match r' with 43%N :: t | 45%N :: t => t | _ => r' end in
         match ds with [] => false | _ => forallb isDigit ds end
  end.

(** The whole of [s] is a [StrDecimalLiteral]. *)
Definition isStrDecimalLiteral (s : list N) : bool :=
  let u := match s with 43%N :: t | 45%N :: t => t | _ => s end in
  bool_decide (u = js "Infinity")
  || match dropWhile isDigit u with
     | 46%N :: r' =>
         match takeWhile isDigit u, takeWhile isDigit r' with
         | [], [] => false
         | _, _ => isExponentPart (dropWhile isDigit r')
         end
     | r => match takeWhile isDigit u with [] => false | _ => isExponentPart r end
     end.

(** The value of a digit in a radix up to 16, [None] for what is no digit
    of it. *)
Definition digitOfRadix (radix : Z) (c : N) : option Z :=
  let d :=
    if isDigit c then Z.of_N (c - 48)
    else if ((97 <=? c) && (c <=? 102))%N then Z.of_N (c - 87)
    else if ((65 <=? c) && (c <=? 70))%N then Z.of_N (c - 55)
    else 16%Z in
  if (d <? radix)%Z then Some d else None.

(** The whole of [s] as a [NonDecimalIntegerLiteral]: [0x], [0o] or [0b]
    and digits of that radix. *)
Definition nonDecimalIntegerLiteral (s : list N) : option float :=
  match s with
  | 48%N :: p :: ((_ :: _) as ds) =>
      let radix :=
        if ((p =? 120) || (p =? 88))%N then 16%Z
        else if ((p =? 111) || (p =? 79))%N then 8%Z
        else if ((p =? 98) || (p =? 66))%N then 2%Z
        else 0%Z in
      match
        fold_left
          (fun acc c =>
             match acc, digitOfRadix radix c with
             | Some n, Some d => Some (radix * n + d)%Z
             | _, _ => None
             end) ds (Some 0%Z)
      with
      | Some n => Some (decimalValue false n 0)
      | None => None
      end
  | _ => None
  end.

(** [Number(s)] on a string, [StringToNumber]: white space at both ends is
    dropped; nothing is [0]; a numeric literal that is the whole rest is its
    value; anything else is [NaN]. *)
Definition Number_ofString (s : list N) : float :=
  match trim s with
  | [] => 0%float
  | t =>
      if isStrDecimalLiteral t then parseFloatString t
      else match nonDecimalIntegerLiteral t with Some x => x | None => nan end
  end.

(** [Number.isFinite] *)
Definition isFinite (x : float) : bool :=
  match Prim2SF x with
  | S754_finite _ _ _ | S754_zero _ => true
  | _ => false
  end.

(** The absolute value of a finite number, as the rational it is. *)
Definition magnitude (x : float) : Q :=
  match Prim2SF x with
  | S754_finite _ m e => (inject_Z (Z.pos m) * (2 # 1) ^ e)%Q
  | _ => 0%Q
  end.

(** ** Values *)

(** The primitive values a field of a decoded JSON payload or an [any]
    argument holds here. *)
Inductive JsValue :=
  | JsUndefined
  | JsNull
  | JsBoolean (b : bool)
  | JsNumber (x : float)
  | JsString (s : list N).

(** [ToBoolean] *)
Definition truthy (v : JsValue) : bool :=
  match v with
  | JsUndefined | JsNull => false
  | JsBoolean b => b
  | JsNumber x => truthyNumber x
  | JsString s => match s with [] => false | _ => true end
  end.

(** [ToString], the function [String] *)
Definition ToString (v : JsValue) : list N :=
  match v with
  | JsUndefined => js "undefined"
  | JsNull => js "null"
  | JsBoolean b => if b then js "true" else js "false"
  | JsNumber x => Number_toString x
  | JsString s => s
  end.

(** [a === b] *)
Definition strictEquals (a b : JsValue) : bool :=
  match a, b with
  | JsUndefined, JsUndefined | JsNull, JsNull => true
  | JsBoolean x, JsBoolean y => Bool.eqb x y
  | JsNumber x, JsNumber y => (x =? y)%float
  | JsString s, JsString t => bool_decide (s = t)
  | _, _ => false
  end.

(** The global [parseFloat]: its argument goes through [ToString]. *)
Definition parseFloat (v : JsValue) : float := parseFloatString (ToString v).

(** [ToNumber], the function [Number] *)
Definition ToNumber (v : JsValue) : float :=
  match v with
  | JsUndefined => nan
  | JsNull => 0%float
  | JsBoolean b => if b then 1%float else 0%float
  | JsNumber x => x
  | JsString s => Number_ofString s
  end.

(** A value with its structure, as [JSON.parse] makes them and as a field
    typed [any] holds them. *)
#[warnings="-register-all"]
Inductive Value :=
  | Primitive (v : JsValue)
  | ArrayOf (elements : list Value)
  | ObjectOf (properties : list (list N * Value)).

Definition truthyValue (v : Value) : bool :=
  match v with
  | Primitive p => truthy p
  | ArrayOf _ | ObjectOf _ => true
  end.

(** [Array.prototype.sort] with a comparator: a stable sort, [cmp a b <= 0]
    keeping [a] before [b]. *)
Fixpoint sortInsert {A} (cmp : A -> A -> Z) (x : A) (l : list A) : list A :=
  match l with
  | [] => [x]
  | y :: l' => if (cmp x y <=? 0)%Z then x :: l else y :: sortInsert cmp x l'
  end.

Definition Array_sort {A} (cmp : A -> A -> Z) (l : list A) : list A :=
  fold_right (sortInsert cmp) [] l.

(** What the sort makes of the number that a comparator returns: its sign,
    and [0] for [NaN]. *)
Definition sortOrder (v : float) : Z :=
  if (v <? 0)%float then (-1)%Z else if (0 <? v)%float then 1%Z else 0%Z.

(** ** Regular expressions *)

(** The fragment of regular expressions the sources use, over character
    classes. [RegExp_test] is [/^r$/.test(s)]: the anchors make it a match of
    the whole string. *)
Inductive RegExp :=
  | ReNone
  | ReEmpty
  | ReClass (p : N -> bool)
  | ReCat (r1 r2 : RegExp)
  | ReAlt (r1 r2 : RegExp)
  | ReStar (r : RegExp).

Definition RePlus (r : RegExp) : RegExp := ReCat r (ReStar r).

Fixpoint nullable (r : RegExp) : bool :=
  match r with
  | ReNone | ReClass _ => false
  | ReEmpty | ReStar _ => true
  | ReCat r1 r2 => nullable r1 && nullable r2
  | ReAlt r1 r2 => nullable r1 || nullable r2
  end.

(** The derivative of [r] by the character [c]. *)
Fixpoint derive (c : N) (r : RegExp) : RegExp :=
  match r with
  | ReNone | ReEmpty => ReNone
  | ReClass p => if p c then ReEmpty else ReNone
  | ReCat r1 r2 =>
      if nullable r1 then ReAlt (ReCat (derive c r1) r2) (derive c r2)
      else ReCat (derive c r1) r2
  | ReAlt r1 r2 => ReAlt (derive c r1) (derive c r2)
  | ReStar r1 => ReCat (derive c r1) (ReStar r1)
  end.

Fixpoint RegExp_test (r : RegExp) (s : list N) : bool :=
  match s with
  | [] => nullable r
  | c :: s' => RegExp_test (derive c r) s'
  end.

(** The strings a regular expression denotes, to reason about
    [RegExp_test]. *)
Inductive Matches : RegExp -> list N -> Prop :=
  | MatchesEmpty : Matches ReEmpty []
  | MatchesClass (p : N -> bool) (c : N) : p c = true -> Matches (ReClass p) [c]
  | MatchesCat (r1 r2 : RegExp) (s1 s2 : list N) :
      Matches r1 s1 -> Matches r2 s2 -> Matches (ReCat r1 r2) (s1 ++ s2)
  | MatchesAltL (r1 r2 : RegExp) (s : list N) : Matches r1 s -> Matches (ReAlt r1 r2) s
  | MatchesAltR (r1 r2 : RegExp) (s : list N) : Matches r2 s -> Matches (ReAlt r1 r2) s
  | MatchesStarNil (r : RegExp) : Matches (ReStar r) []
  | MatchesStarApp (r : RegExp) (s1 s2 : list N) :
      Matches r s1 -> Matches (ReStar r) s2 -> Matches (ReStar r) (s1 ++ s2).

(** [s.replace(/[p]/g, by)]: every character of the class is replaced. *)
Fixpoint replaceEach (p : N -> bool) (by' : list N) (s : list N) : list N :=
  match s with
  | [] => []
  | c :: s' => if p c then by' ++ replaceEach p by' s' else c :: replaceEach p by' s'
  end.

(** [s.replace(/[p]+/g, by)]: every maximal run of the class is replaced. *)
Fixpoint replaceRuns (p : N -> bool) (by' : list N) (s : list N) : list N :=
  match s with
  | [] => []
  | c :: s' =>
      if p c then
        match s' with
        | c' :: _ => if p c' then replaceRuns p by' s' else by' ++ replaceRuns p by' s'
        | [] => by'
        end
      else c :: replaceRuns p by' s'
  end.

(** [s.replace(/^[p]+|[p]+$/g, '')]: the run at the start and the run at the
    end are removed. *)
Definition stripEnds (p : N -> bool) (s : list N) : list N :=
  dropWhileEnd p (dropWhile p s).

(** ** The host interface *)

(** What the engine computes from its locale, Unicode and calendar data. *)
Class Host := {
  (** [s.toLowerCase()] *)
  toLowerCase : list N -> list N;
  (** [s.normalize('NFD')] *)
  normalizeNFD : list N -> list N;
  (** the sign of [a.localeCompare(b)] *)
  localeCompare : list N -> list N -> Z;
  (** the time value of [new Date(s)], [NaN] for an invalid date *)
  Date_valueOf : list N -> float;
  (** [Object.entries(o)] of a dictionary of strings: its own properties,
      each once, in the engine's enumeration order *)
  Object_entries : gmap (list N) (list N) -> list (list N * list N);
  Object_entries_perm : forall o, Object_entries o ≡ₚ map_to_list o
}.

Fixpoint codeUnitCompare (a b : list N) : Z :=
  match a, b with
  | [], [] => 0
  | [], _ :: _ => -1
  | _ :: _, [] => 1
  | x :: a', y :: b' =>
      match (x ?= y)%N with
      | Lt => -1
      | Gt => 1
      | Eq => codeUnitCompare a' b'
      end
  end%Z.

(** A host to run closed examples on: ASCII case mapping, no decomposition,
    code-unit order, dates written as milliseconds since the epoch, and
    properties enumerated as the map lists them. *)
Definition sampleHost : Host := {|
  toLowerCase := List.map (fun c => if ((65 <=? c) && (c <=? 90))%N then (c + 32)%N else c);
  normalizeNFD := fun s => s;
  localeCompare := codeUnitCompare;
  Date_valueOf := parseFloatString;
  Object_entries := map_to_list;
  Object_entries_perm := fun o => Permutation_refl (map_to_list o)
|}.

(** * [src/utils/priceUtils.ts] *)

Module PriceUtils.

(** A bulk rule: [{ minQty: number; discount: number }]. *)
Record BulkRule := { minQty : float; discount : float }.

Section Utilities.
Context `{Host}.

Definition calculateDiscountPercentage (price comparePrice : float) : float :=
  if negb (truthyNumber comparePrice) || (comparePrice <=? price)%float then 0%float
  else Math_round (((comparePrice - price) / comparePrice) * 100)%float.

Definition calculateProfitMargin (price costPrice : float) : float :=
  if negb (truthyNumber costPrice) || (costPrice <=? 0)%float then 0%float
  else Math_round (((price - costPrice) / price) * 100)%float.

(** [o[key] = value] on an object made by [{}], for a string [value]:
    [__proto__] is the accessor inherited from [Object.prototype], whose
    setter ignores a value that is no object, so no property is made. *)
Definition setProperty (o : gmap (list N) (list N)) (key value : list N) : gmap (list N) (list N) :=
  if decide (key = js "__proto__") then o else <[key := value]> o.

Definition generateAttributeKey (attributes : gmap (list N) (list N)) : list N :=
  join (js "|")
    (List.map (fun '(key, value) => key ++ js ":" ++ value)
       (Array_sort (fun a b => localeCompare a.1 b.1) (Object_entries attributes))).

Definition parseAttributeKey (attributeKey : list N) : gmap (list N) (list N) :=
  fold_left
    (fun attributes pair =>
       let parts := split 58 pair in
       match parts !! 0%nat, parts !! 1%nat with
       | Some key, Some value =>
           if truthy (JsString key) && truthy (JsString value)
           then setProperty attributes key value
           else attributes
       | _, _ => attributes
       end)
    (split 124 attributeKey) ∅.

Definition isValidPrice (price : JsValue) : bool :=
  match price with
  | JsNumber x => (0 <=? x)%float && negb (is_nan x)
  | _ => false
  end.

Definition sanitizePrice (price : JsValue) : float :=
  let parsed := parseFloat price in
  if isValidPrice (JsNumber parsed) then parsed else 0%float.

(** The [for ... of] loop of [calculateBulkPrice], with its [break]. *)
Fixpoint applicableDiscount (quantity : float) (rules : list BulkRule) : float :=
  match rules with
  | [] => 0%float
  | rule :: rest =>
      if (minQty rule <=? quantity)%float then discount rule
      else applicableDiscount quantity rest
  end.

(** [bulkRules.sort] sorts the caller's array in place and returns it: the
    second component is what [bulkRules] holds after the call. *)
Definition calculateBulkPrice (basePrice : float) (quantity : float) (bulkRules : list BulkRule)
  : float * list BulkRule :=
  let bulkRules' := Array_sort (fun a b => sortOrder (minQty b - minQty a)%float) bulkRules in
  ((basePrice * (1 - applicableDiscount quantity bulkRules' / 100))%float, bulkRules').

Definition isCombiningMark (c : N) : bool := ((768 <=? c) && (c <=? 879))%N.

(** The class [[a-z0-9\s-]]. *)
Definition isSlugInput (c : N) : bool :=
  isLowerAZ c || isDigit c || isWhiteSpace c || isHyphen c.

Definition generateSlug (title : list N) : list N :=
  match title with
  | [] => []
  | _ =>
      stripEnds isHyphen
        (replaceRuns isHyphen (js "-")
           (replaceRuns isWhiteSpace (js "-")
              (replaceEach (fun c => negb (isSlugInput c)) []
                 (replaceEach isCombiningMark []
                    (normalizeNFD (trim (toLowerCase title)))))))
  end.

(** [/^[a-z0-9]+(-[a-z0-9]+)*$/] *)
Definition slugRegex : RegExp :=
  let alnum := ReClass (fun c => isLowerAZ c || isDigit c) in
  ReCat (RePlus alnum) (ReStar (ReCat (ReClass isHyphen) (RePlus alnum))).

Definition isValidSlug (slug : list N) : bool :=
  match slug with
  | [] => false
  | _ => RegExp_test slugRegex slug
  end.

End Utilities.

Definition formatPrice (price : float) : list N := toFixed price 2.

(** [PriceData]: [comparePrice] and [costPrice] may be missing or [null]. *)
Module PriceData.
Record t := { price : float; comparePrice : option float; costPrice : option float }.
End PriceData.

(** What [getPriceDisplay] returns; [None] is [null]. *)
Module PriceDisplay.
Record t := {
  price : list N;
  originalPrice : option (list N);
  discountPercentage : float;
  profitMargin : float;
  isOnSale : bool;
  savings : option (list N)
}.
End PriceDisplay.

(** An optional number that passes a truthiness test [x ? ... : ...]: it is
    there and is no zero and not [NaN]. *)
Definition whenTruthy (o : option float) : option float :=
  match o with
  | Some x => if truthyNumber x then Some x else None
  | None => None
  end.

Definition getPriceDisplay (priceData : PriceData.t) : PriceDisplay.t :=
  let price := PriceData.price priceData in
  let comparePrice := whenTruthy (PriceData.comparePrice priceData) in
  let costPrice := whenTruthy (PriceData.costPrice priceData) in
  {| PriceDisplay.price := formatPrice price;
     PriceDisplay.originalPrice :=
       match comparePrice with Some cp => Some (formatPrice cp) | None => None end;
     PriceDisplay.discountPercentage :=
       match comparePrice with
       | Some cp => calculateDiscountPercentage price cp
       | None => 0%float
       end;
     PriceDisplay.profitMargin :=
       match costPrice with Some c => calculateProfitMargin price c | None => 0%float end;
     PriceDisplay.isOnSale :=
       match comparePrice with Some cp => (price <? cp)%float | None => false end;
     PriceDisplay.savings :=
       match comparePrice with
       | Some cp => if (price <? cp)%float then Some (formatPrice (cp - price)%float) else None
       | None => None
       end |}.

(** An entry of the [variants] of [calculatePriceRange]. *)
Module Variant.
Record t := { price : float; comparePrice : option float }.
End Variant.

Module PriceRange.
Record t := {
  min : float;
  max : float;
  minFormatted : list N;
  maxFormatted : list N;
  range : list N;
  hasRange : bool
}.
End PriceRange.

Definition calculatePriceRange (variants : list Variant.t) : PriceRange.t :=
  match variants with
  | [] =>
      {| PriceRange.min := 0; PriceRange.max := 0;
         PriceRange.minFormatted := formatPrice 0; PriceRange.maxFormatted := formatPrice 0;
         PriceRange.range := formatPrice 0; PriceRange.hasRange := false |}
  | _ =>
      let prices := List.map Variant.price variants in
      let min := Math_min prices in
      let max := Math_max prices in
      let hasRange := negb (min =? max)%float in
      {| PriceRange.min := min; PriceRange.max := max;
         PriceRange.minFormatted := formatPrice min; PriceRange.maxFormatted := formatPrice max;
         PriceRange.range :=
           if hasRange then formatPrice min ++ js " - " ++ formatPrice max else formatPrice min;
         PriceRange.hasRange := hasRange |}
  end.

(** A key or value the specification's round trip is stated for: it has
    no [:] and no [|]. *)
Definition separatorFree (s : list N) : Prop := ~ In 58%N s /\ ~ In 124%N s.

(** An entry the round trip is stated for: its key and value are not
    empty and hold no separator, and its key is not [__proto__]. *)
Definition roundTrips (entry : list N * list N) : Prop :=
  separatorFree entry.1 /\ separatorFree entry.2
  /\ entry.1 <> [] /\ entry.2 <> [] /\ entry.1 <> js "__proto__".

(** The specification's slugs: segments of lowercase letters and digits,
    none empty, joined by single hyphens. *)
Definition isAlnum (c : N) : bool := isLowerAZ c || isDigit c.

Inductive Slug : list N -> Prop :=
  | SlugChar (c : N) : isAlnum c = true -> Slug [c]
  | SlugMore (c : N) (s : list N) : isAlnum c = true -> Slug s -> Slug (c :: s)
  | SlugJoin (c : N) (s : list N) : isAlnum c = true -> Slug s -> Slug (c :: 45%N :: s).

(** No hyphen is followed by a hyphen. *)
Fixpoint singleHyphens (s : list N) : Prop :=
  match s with
  | c :: ((d :: _) as s') => (isHyphen c = true -> isHyphen d = false) /\ singleHyphens s'
  | _ => True
  end.

End PriceUtils.

(** A list in descending order of [key]: each element's key is at least
    the key of every later one. *)
Definition descending {A : Type} (key : A -> float) (l : list A) : Prop :=
  StronglySorted (fun a b => (key b <=? key a)%float = true) l.

(** * The pages: what a server answers and what a handler shows *)

(** How an awaited [fetch] ends: it rejects when the request fails on the
    network, and resolves with a response otherwise, whatever its status;
    [ok] is [response.ok]. *)
Inductive FetchResult :=
  | Rejects
  | Resolves (ok : bool).

Inductive Effect :=
  | Alert (message : list N)
  | ConsoleError (message : list N).

(** * [src/app/orders/page.tsx] *)

Module Orders.

Record OrderItem := {
  productName : list N;
  sku : option (list N)
}.

(** [totalAmount] is declared a number; a decoded payload may hold a string
    there, or nothing. *)
Record Order := {
  id : list N;
  orderNumber : list N;
  email : list N;
  status : list N;
  paymentStatus : list N;
  totalAmount : JsValue;
  shippingFirstName : option (list N);
  shippingLastName : option (list N);
  createdAt : list N;
  items : option (list OrderItem)
}.

(** A stored addon selection, the [addon: any] of [getAddonTitle]. *)
Record Addon := {
  addonId : JsValue;
  addonTitle : JsValue;
  title : JsValue;
  name : JsValue
}.

(** A row of the addon catalog, as [/api/addons] returns it. *)
Record CatalogAddon := {
  catalogId : JsValue;
  catalogTitle : JsValue
}.

(** The component's state: its [useState] cells. *)
Record State := {
  orders : list Order;
  filteredOrders : list Order;
  addons : list CatalogAddon;
  searchTerm : list N;
  statusFilter : list N;
  paymentFilter : list N;
  startDate : list N;
  endDate : list N
}.

Record OrderStats := {
  totalOrders : nat;
  totalRevenue : float;
  pendingOrders : nat;
  completedOrders : nat
}.

Definition setOrders (st : State) (l : list Order) : State :=
  {| orders := l; filteredOrders := filteredOrders st; addons := addons st;
     searchTerm := searchTerm st; statusFilter := statusFilter st;
     paymentFilter := paymentFilter st; startDate := startDate st;
     endDate := endDate st |}.

Definition setFilteredOrders (st : State) (l : list Order) : State :=
  {| orders := orders st; filteredOrders := l; addons := addons st;
     searchTerm := searchTerm st; statusFilter := statusFilter st;
     paymentFilter := paymentFilter st; startDate := startDate st;
     endDate := endDate st |}.

Section Page.
Context `{Host}.

Definition getAddonTitle (st : State) (addon : Addon) (index : float) : JsValue :=
  if truthy (addonTitle addon) then addonTitle addon
  else if truthy (title addon) then title addon
  else if truthy (name addon) then name addon
  else
    let fallback := JsString (js "Addon " ++ Number_toString (index + 1)%float) in
    if truthy (addonId addon) && (0 <? length (addons st))%nat then
      match List.find (fun a => strictEquals (catalogId a) (addonId addon)) (addons st) with
      | Some addonFromTable => catalogTitle addonFromTable
      | None => fallback
      end
    else fallback.

(** [field?.toLowerCase().includes(term)]: [undefined], so falsy, when the
    field is missing. *)
Definition optionalIncludes (field : option (list N)) (term : list N) : bool :=
  match field with
  | Some s => includes (toLowerCase s) term
  | None => false
  end.

(** The predicate of the search filter. *)
Definition matchesSearch (searchTerm : list N) (order : Order) : bool :=
  includes (toLowerCase (orderNumber order)) (toLowerCase searchTerm)
  || includes (toLowerCase (email order)) (toLowerCase searchTerm)
  || optionalIncludes (shippingFirstName order) (toLowerCase searchTerm)
  || optionalIncludes (shippingLastName order) (toLowerCase searchTerm)
  || match items order with
     | Some its =>
         existsb (fun item =>
                    includes (toLowerCase (productName item)) (toLowerCase searchTerm)
                    || optionalIncludes (sku item) (toLowerCase searchTerm)) its
     | None => false
     end.

Definition filterOrders (st : State) : State :=
  let filtered := orders st in
  let filtered :=
    if truthy (JsString (searchTerm st))
    then List.filter (matchesSearch (searchTerm st)) filtered else filtered in
  let filtered :=
    if negb (bool_decide (statusFilter st = js "all"))
    then List.filter (fun order => bool_decide (status order = statusFilter st)) filtered
    else filtered in
  let filtered :=
    if negb (bool_decide (paymentFilter st = js "all"))
    then List.filter (fun order => bool_decide (paymentStatus order = paymentFilter st)) filtered
    else filtered in
  let filtered :=
    if truthy (JsString (startDate st))
    then List.filter (fun order =>
                        (Date_valueOf (startDate st) <=? Date_valueOf (createdAt order))%float)
           filtered
    else filtered in
  let filtered :=
    if truthy (JsString (endDate st))
    then List.filter (fun order =>
                        (Date_valueOf (createdAt order) <=? Date_valueOf (endDate st))%float)
           filtered
    else filtered in
  setFilteredOrders st filtered.

(** The specification's reading of [filterOrders]: the conjunction of the
    five filters, each one passing everything while it is not active. *)
Definition passesFilters (st : State) (order : Order) : bool :=
  (negb (truthy (JsString (searchTerm st))) || matchesSearch (searchTerm st) order)
  && (bool_decide (statusFilter st = js "all") || bool_decide (status order = statusFilter st))
  && (bool_decide (paymentFilter st = js "all")
      || bool_decide (paymentStatus order = paymentFilter st))
  && (negb (truthy (JsString (startDate st)))
      || (Date_valueOf (startDate st) <=? Date_valueOf (createdAt order))%float)
  && (negb (truthy (JsString (endDate st)))
      || (Date_valueOf (createdAt order) <=? Date_valueOf (endDate st))%float).

(** [await fetch(..., { method: 'DELETE' })] has ended as [response]; the
    user answered [confirmed] to the [confirm] dialog. *)
Definition handleDelete (confirmed : bool) (response : FetchResult) (st : State) (id' : list N)
  : State * list Effect :=
  if confirmed then
    match response with
    | Resolves true =>
        (setOrders st (List.filter (fun order => negb (bool_decide (id order = id'))) (orders st)), [])
    | Resolves false | Rejects =>
        (st, [ConsoleError (js "Error deleting order:"); Alert (js "Failed to delete order")])
    end
  else (st, []).

(** The [amount] of the reducer in [getOrderStats]:
    [parseFloat(String(order.totalAmount || '0')) || 0]. *)
Definition orderAmount (order : Order) : float :=
  let parsed :=
    parseFloat (JsString (ToString (if truthy (totalAmount order)
                                    then totalAmount order
                                    else JsString (js "0")))) in
  if truthyNumber parsed then parsed else 0%float.

Definition getOrderStats (st : State) : OrderStats :=
  let totalOrders := length (filteredOrders st) in
  let totalRevenue :=
    fold_left
      (fun sum order => let amount := orderAmount order in (sum + amount)%float)
      (filteredOrders st) 0%float in
  let pendingOrders :=
    length (List.filter (fun order => bool_decide (status order = js "pending")) (filteredOrders st)) in
  let completedOrders :=
    length (List.filter (fun order => bool_decide (status order = js "completed")) (filteredOrders st)) in
  {| totalOrders := totalOrders; totalRevenue := totalRevenue;
     pendingOrders := pendingOrders; completedOrders := completedOrders |}.

(** In [exportOrders], the text for the addons of an item:
    [item.addons && Array.isArray(item.addons) && item.addons.length > 0]
    guards it, every title is asked for at index [0], and [join] writes
    [undefined] and [null] as nothing. *)
Definition addonsText (st : State) (itemAddons : option (list Addon)) : list N :=
  match itemAddons with
  | Some ((_ :: _) as l) =>
      js " (Addons: "
      ++ join (js ", ")
           (List.map
              (fun addon =>
                 match getAddonTitle st addon 0 with
                 | JsUndefined | JsNull => []
                 | t => ToString t
                 end) l)
      ++ js ")"
  | _ => []
  end.

End Page.

(** [expandedItems] is a state cell of its own: [toggleItemExpansion]
    returns what it sets it to. *)
Definition toggleItemExpansion (expandedItems : gset (list N)) (itemId : list N)
  : gset (list N) :=
  let newExpanded := expandedItems in
  if decide (itemId ∈ newExpanded) then newExpanded ∖ {[ itemId ]}
  else newExpanded ∪ {[ itemId ]}.

Section Addons.
(** [JSON.parse], [None] when it throws. *)
Variable JSON_parse : list N -> option Value.

(** The array returned, and what is logged. *)
Definition parseAddons (addonsData : Value) : list Value * list Effect :=
  if negb (truthyValue addonsData) then ([], [])
  else
    match addonsData with
    | ArrayOf elements => (elements, [])
    | Primitive (JsString text) =>
        match JSON_parse text with
        | Some (ArrayOf parsed) => (parsed, [])
        | Some _ => ([], [])
        | None => ([], [ConsoleError (js "Error parsing addons:")])
        end
    | ObjectOf _ => ([addonsData], [])
    | Primitive _ => ([], [])
    end.

End Addons.

(** The text [formatCurrency] shows beside the currency symbol. *)
Definition formatCurrency (amount : JsValue) : list N :=
  let numAmount := ToNumber amount in
  if is_nan numAmount || strictEquals amount JsNull || strictEquals amount JsUndefined
  then js "0.00"
  else toFixed numAmount 2.

(** The lines of [exportOrders]: a field is written between quotes with
    each of its quotes doubled, the fields of a row are joined by commas,
    and the header and the rows by line feeds. *)
Definition csvField (field : list N) : list N :=
  let escaped := replaceEach (fun c => (c =? 34)%N) [34%N; 34%N] field in
  [34%N] ++ (if truthy (JsString escaped) then escaped else []) ++ [34%N].

Definition csvRow (row : list (list N)) : list N := join (js ",") (List.map csvField row).

Definition csvHeaders : list (list N) :=
  [ js "Order Number"; js "Customer Name"; js "Email"; js "Phone"; js "Status";
    js "Payment Status"; js "Subtotal"; js "Tax Amount"; js "Shipping Amount";
    js "Discount Amount"; js "Total Amount"; js "Currency"; js "Shipping Address";
    js "Order Date"; js "Items Count"; js "Items Detail" ].

Definition csvContent (csvData : list (list (list N))) : list N :=
  join [10%N] (join (js ",") csvHeaders :: List.map csvRow csvData).

(** Data for closed examples. *)
Definition sampleOrder (id' status' : list N) (total : JsValue) : Order :=
  {| id := id'; orderNumber := js "ORD-" ++ id'; email := js "guest@example.com";
     status := status'; paymentStatus := js "paid"; totalAmount := total;
     shippingFirstName := None; shippingLastName := None;
     createdAt := js "1700000000000"; items := None |}.

Definition sampleState (l : list Order) (catalog : list CatalogAddon) (statusFilter' : list N)
  : State :=
  {| orders := l; filteredOrders := l; addons := catalog; searchTerm := [];
     statusFilter := statusFilter'; paymentFilter := js "all"; startDate := [];
     endDate := [] |}.

End Orders.

(** How a reader of comma-separated values (RFC 4180) takes a text apart,
    to state what [exportOrders] writes: a field is plain, up to the next
    comma or line feed, or quoted, up to the quote that no quote follows; a
    comma ends a field and a line feed a record. *)
Inductive CsvState := FieldStart | Unquoted | InQuotes | QuoteSeen.

Fixpoint readCsv (state : CsvState) (field : list N) (fields : list (list N))
    (records : list (list (list N))) (s : list N) : option (list (list (list N))) :=
  match s with
  | [] =>
      match state with
      | InQuotes => None
      | _ => Some (records ++ [fields ++ [field]])
      end
  | c :: s' =>
      match state with
      | FieldStart =>
          if (c =? 34)%N then readCsv InQuotes [] fields records s'
          else if (c =? 44)%N then readCsv FieldStart [] (fields ++ [[]]) records s'
          else if (c =? 10)%N then readCsv FieldStart [] [] (records ++ [fields ++ [[]]]) s'
          else readCsv Unquoted [c] fields records s'
      | Unquoted =>
          if (c =? 34)%N then None
          else if (c =? 44)%N then readCsv FieldStart [] (fields ++ [field]) records s'
          else if (c =? 10)%N then readCsv FieldStart [] [] (records ++ [fields ++ [field]]) s'
          else readCsv Unquoted (field ++ [c]) fields records s'
      | InQuotes =>
          if (c =? 34)%N then readCsv QuoteSeen field fields records s'
          else readCsv InQuotes (field ++ [c]) fields records s'
      | QuoteSeen =>
          if (c =? 34)%N then readCsv InQuotes (field ++ [34%N]) fields records s'
          else if (c =? 44)%N then readCsv FieldStart [] (fields ++ [field]) records s'
          else if (c =? 10)%N then readCsv FieldStart [] [] (records ++ [fields ++ [field]]) s'
          else None
      end
  end.

(** What follows a field that is complete: the end of the text, or a comma
    or a line feed and more text. *)
Inductive FieldEnd : list N -> Prop :=
  | EndOfText : FieldEnd []
  | EndOfField (rest : list N) : FieldEnd (44%N :: rest)
  | EndOfRecord (rest : list N) : FieldEnd (10%N :: rest).

(** * [src/app/products/page.tsx] *)

Module Products.

(** A row of [/api/products]: the list reads [product.product.id]. *)
Record Product := { id : list N }.
Record ProductRow := { product : Product }.

Record State := {
  products : list ProductRow;
  loading : bool
}.

Definition setProducts (st : State) (l : list ProductRow) : State :=
  {| products := l; loading := loading st |}.

(** As in [Orders.handleDelete]; here the response is awaited and not read. *)
Definition handleDelete (confirmed : bool) (response : FetchResult) (st : State) (id' : list N)
  : State * list Effect :=
  if confirmed then
    match response with
    | Resolves _ =>
        (setProducts st
           (List.filter (fun row => negb (bool_decide (id (product row) = id'))) (products st)), [])
    | Rejects => (st, [ConsoleError (js "Error deleting product:")])
    end
  else (st, []).

(** What the price cell shows: a text, or an amount beside the currency
    symbol. *)
Inductive PriceCell :=
  | Text (text : list N)
  | Amount (text : list N).

Definition formatPrice (price productType : JsValue) : PriceCell :=
  let numPrice := parseFloat price in
  if strictEquals productType (JsString (js "group")) && (numPrice =? 0)%float
  then Text (js "From addons")
  else Amount (toFixed numPrice 2).

End Products.


(** * Properties *)

(** ** Numbers: what the comparisons and the product by one compute *)

Section FloatFacts.

Lemma SFcompare_refl (s : bool) (m : positive) (e : Z) :
  SFcompare (S754_finite s m e) (S754_finite s m e) = Some Eq.
Proof.
  cbn. rewrite Z.compare_refl, Pos.compare_cont_refl. now destruct s.
Qed.

Lemma is_nan_spec (x : float) :
  is_nan x = match Prim2SF x with S754_nan => true | _ => false end.
Proof.
  unfold is_nan. rewrite FloatAxioms.eqb_spec. unfold SFeqb.
  destruct (Prim2SF x) as [[]|[]| |s m e]; try reflexivity.
  now rewrite SFcompare_refl.
Qed.

Lemma is_zero_spec (x : float) :
  is_zero x = match Prim2SF x with S754_zero _ => true | _ => false end.
Proof.
  unfold is_zero. rewrite FloatAxioms.eqb_spec.
  change (Prim2SF zero) with (S754_zero false).
  now destruct (Prim2SF x) as [[]|[]| |[] m e].
Qed.

Lemma is_infinity_spec (x : float) :
  is_infinity x = match Prim2SF x with S754_infinity _ => true | _ => false end.
Proof.
  unfold is_infinity. rewrite FloatAxioms.eqb_spec, abs_spec.
  change (Prim2SF infinity) with (S754_infinity false).
  now destruct (Prim2SF x) as [[]|[]| |[] m e].
Qed.

(** [!c || c <= 0] is the negation of [c > 0], [NaN] included. *)
Lemma falsy_or_nonpositive (c : float) :
  negb (truthyNumber c) || (c <=? 0)%float = negb (0 <? c)%float.
Proof.
  unfold truthyNumber.
  rewrite is_zero_spec, is_nan_spec, FloatAxioms.leb_spec, FloatAxioms.ltb_spec.
  change (Prim2SF 0) with (S754_zero false).
  now destruct (Prim2SF c) as [[]|[]| |[] m e].
Qed.

(** [x >= 0 && !isNaN(x)] holds of [+∞] and of the finite numbers from
    [-0] up, and of nothing else. *)
Lemma nonnegative_cases (x : float) :
  (0 <=? x)%float && negb (is_nan x) = true <->
  x = infinity \/ (is_finite x = true /\ (0 <=? x)%float = true).
Proof.
  unfold is_finite.
  rewrite is_nan_spec, is_infinity_spec, FloatAxioms.leb_spec.
  change (Prim2SF 0) with (S754_zero false).
  split.
  - destruct (Prim2SF x) as [[]|[]| |[] m e] eqn:E; cbn; intros; try discriminate; auto.
    left. apply Prim2SF_inj. rewrite E. reflexivity.
  - intros [-> | [H1 H2]]; [reflexivity|].
    destruct (Prim2SF x) as [[]|[]| |[] m e] eqn:E; cbn in *; try discriminate; auto.
Qed.

Lemma digits2_pos_xO_iter (k : nat) (m : positive) :
  Z.pos (digits2_pos (Nat.iter k xO m)) = (Z.pos (digits2_pos m) + Z.of_nat k)%Z.
Proof.
  induction k as [|k IH].
  - simpl. lia.
  - rewrite Nat.iter_succ. cbn [digits2_pos].
    change PosDef.Pos.succ with Pos.succ. rewrite Pos2Z.inj_succ, IH. lia.
Qed.

Lemma mul_two_pow_52 (m : positive) :
  (m * 4503599627370496)%positive = Nat.iter 52 xO m.
Proof. rewrite Pos.mul_comm. reflexivity. Qed.

(** The product with the mantissa of [1] is shifted back without loss. *)
Lemma SFmul_one_r (x : spec_float) :
  valid_binary x = true ->
  SFmul prec emax x (S754_finite false 4503599627370496 (-52)) = x.
Proof.
  destruct x as [s|s| |s m e]; cbn [SFmul valid_binary]; intros V;
    rewrite ?xorb_false_r; try reflexivity.
  apply andb_prop in V as [V1 V2].
  apply Z.eqb_eq in V1.
  unfold binary_round_aux, shr_fexp.
  cbn [Zdigits2]. rewrite mul_two_pow_52, digits2_pos_xO_iter.
  replace (Z.pos (digits2_pos m) + Z.of_nat 52 + (e + -52))%Z
    with (Z.pos (digits2_pos m) + e)%Z by lia.
  rewrite V1.
  replace (e - (e + -52))%Z with 52%Z by lia.
  cbn [shr_record_of_loc shr].
  change (SpecFloat.iter_pos shr_1 52 {| shr_m := Z.pos (Nat.iter 52 xO m); shr_r := false; shr_s := false |})
    with {| shr_m := Z.pos m; shr_r := false; shr_s := false |}.
  cbn [shr_m loc_of_shr_record round_nearest_even Zdigits2].
  replace (e + -52 + 52)%Z with e by lia.
  rewrite V1, Z.sub_diag. cbn [shr shr_record_of_loc shr_m].
  now rewrite V2.
Qed.

(** [x * 1] is [x], whatever [x]: signed zeros, infinities and [NaN] too. *)
Lemma mul_one_r (x : float) : (x * 1)%float = x.
Proof.
  apply Prim2SF_inj. rewrite mul_spec.
  change (Prim2SF 1) with (S754_finite false 4503599627370496 (-52)).
  apply SFmul_one_r, Prim2SF_valid.
Qed.

End FloatFacts.

(** ** The built-in functions on examples *)

Example parseFloatString_examples :
  List.map (fun s => parseFloatString (js s))
    [ "12.5"; "  -3.25xyz"; ".5"; "5."; "1e3"; "1e"; "-Infinity"; "0x10"; "abc"; "."; "" ]%string
  = [ 12.5; -3.25; 0.5; 5; 1000; 1; neg_infinity; 0; nan; nan; nan ]%float.
Proof. reflexivity. Qed.

Example Number_toString_examples :
  List.map Number_toString
    [ 12.5; 100; -1.5; 1e21; 9007199254740992; (1 / 10); (1 / 10 + 2 / 10);
      (1 / 10000000); nan; neg_infinity; neg_zero ]%float
  = List.map js
      [ "12.5"; "100"; "-1.5"; "1e+21"; "9007199254740992"; "0.1";
        "0.30000000000000004"; "1e-7"; "NaN"; "-Infinity"; "0" ]%string.
Proof. vm_compute. reflexivity. Qed.

Example Math_round_examples :
  List.map Math_round [ 2.5; -2.5; 0.5; -0.5; 1.25; -1.75; 40; infinity ]%float
  = [ 3; -2; 1; neg_zero; 1; -2; 40; infinity ]%float.
Proof. reflexivity. Qed.

Example split_join_examples :
  split 58 (js "a:b:c") = [js "a"; js "b"; js "c"]
  /\ split 58 (js "ab") = [js "ab"]
  /\ split 124 [] = [[]]
  /\ join (js "|") [js "a:1"; js "b:2"] = js "a:1|b:2"
  /\ join (js "|") [] = [].
Proof. repeat split. Qed.

Example isValidSlug_examples :
  PriceUtils.isValidSlug (js "cafe-deja-vu") = true
  /\ PriceUtils.isValidSlug (js "-bad-") = false
  /\ PriceUtils.isValidSlug (js "bad--slug") = false
  /\ PriceUtils.isValidSlug [] = false.
Proof. repeat split. Qed.

Example generateSlug_examples :
  @PriceUtils.generateSlug sampleHost (js "  Hello   World -- 2024!! ") = js "hello-world-2024"
  /\ @PriceUtils.generateSlug sampleHost (js "--- !!") = []
  /\ @PriceUtils.generateSlug sampleHost [] = [].
Proof. repeat split. Qed.

(** ** [Array.prototype.sort] *)

Section Sorting.
Context {A : Type} (cmp : A -> A -> Z).

Lemma sortInsert_perm (x : A) (l : list A) : sortInsert cmp x l ≡ₚ x :: l.
Proof.
  induction l as [|y l IH]; cbn; [done|].
  destruct (cmp x y <=? 0)%Z; [done|].
  rewrite IH. apply perm_swap.
Qed.

Lemma Array_sort_perm (l : list A) : Array_sort cmp l ≡ₚ l.
Proof.
  induction l as [|x l IH]; cbn; [done|].
  fold (Array_sort cmp l). now rewrite sortInsert_perm, IH.
Qed.

Lemma Array_sort_In (x : A) (l : list A) : In x (Array_sort cmp l) <-> In x l.
Proof.
  split; apply Permutation_in; [|symmetry]; apply Array_sort_perm.
Qed.
End Sorting.


(** ** The sign of a difference *)

Section Differences.

Lemma digits2_pos_bounds (m : positive) :
  (2 ^ (Z.pos (digits2_pos m) - 1) <= Z.pos m < 2 ^ Z.pos (digits2_pos m))%Z.
Proof.
  induction m as [m IH|m IH|]; cbn [digits2_pos]; [| |cbn; lia];
    change PosDef.Pos.succ with Pos.succ; rewrite Pos2Z.inj_succ;
    replace (Z.succ (Z.pos (digits2_pos m)) - 1)%Z with (Z.succ (Z.pos (digits2_pos m) - 1)) by lia;
    rewrite !Z.pow_succ_r by lia; lia.
Qed.

(** A mantissa and an exponent of a number: at most [prec] digits, all of
    them above the least exponent. *)
Lemma bounded_cases (m : positive) (e : Z) :
  bounded prec emax m e = true ->
  (emin <= e)%Z
  /\ (Z.pos (digits2_pos m) <= prec)%Z
  /\ (emin < e -> Z.pos (digits2_pos m) = prec)%Z.
Proof.
  unfold bounded, canonical_mantissa, fexp. intros [Hc _]%andb_prop.
  apply Z.eqb_eq in Hc. lia.
Qed.

Lemma iter_xO_value (d : positive) (m : positive) :
  Z.pos (Pos.iter xO m d) = (Z.pos m * 2 ^ Z.pos d)%Z.
Proof.
  induction d as [|d IH] using Pos.peano_ind.
  - cbn [Pos.iter]. rewrite Pos2Z.inj_xO. lia.
  - rewrite Pos.iter_succ, Pos2Z.inj_xO, IH, Pos2Z.inj_succ, Z.pow_succ_r by lia. lia.
Qed.

(** The mantissa that [shl_align] makes for a lower exponent. *)
Lemma shl_align_value (m : positive) (e e' : Z) :
  (e' <= e)%Z -> Z.pos (fst (shl_align m e e')) = (Z.pos m * 2 ^ (e - e'))%Z.
Proof.
  intros Hle. unfold shl_align. destruct (e' - e)%Z as [|d|d] eqn:Ed; cbn [fst].
  - replace (e - e')%Z with 0%Z by lia. lia.
  - lia.
  - rewrite iter_xO_value. f_equal. f_equal. lia.
Qed.

Lemma shr_1_half (mrs : shr_record) :
  (0 <= shr_m mrs)%Z -> shr_m (shr_1 mrs) = (shr_m mrs / 2)%Z.
Proof.
  destruct mrs as [[|[p|p|]|p] r s]; cbn [shr_m shr_1]; intros Hm; try lia.
  - reflexivity.
  - rewrite Pos2Z.inj_xI. apply Z.div_unique with 1%Z; lia.
  - rewrite Pos2Z.inj_xO. apply Z.div_unique with 0%Z; lia.
  - reflexivity.
Qed.

Lemma pow2_xO (p : positive) : (2 ^ Z.pos p~0 = 2 ^ Z.pos p * 2 ^ Z.pos p)%Z.
Proof. replace (Z.pos p~0) with (Z.pos p + Z.pos p)%Z by lia. apply Z.pow_add_r; lia. Qed.

Lemma pow2_xI (p : positive) : (2 ^ Z.pos p~1 = 2 * (2 ^ Z.pos p * 2 ^ Z.pos p))%Z.
Proof.
  replace (Z.pos p~1) with (Z.succ (Z.pos p~0)) by lia.
  rewrite Z.pow_succ_r, pow2_xO by lia. reflexivity.
Qed.

Lemma iter_shr_1_value (n : positive) (mrs : shr_record) :
  (0 <= shr_m mrs)%Z ->
  shr_m (SpecFloat.iter_pos shr_1 n mrs) = (shr_m mrs / 2 ^ Z.pos n)%Z.
Proof.
  revert mrs. induction n as [n IH|n IH|]; intros mrs Hm; cbn [SpecFloat.iter_pos].
  - assert (H1 : (0 <= shr_m (shr_1 mrs))%Z) by (rewrite shr_1_half by exact Hm; now apply Z.div_pos).
    assert (H2 : (0 <= shr_m (SpecFloat.iter_pos shr_1 n (shr_1 mrs)))%Z)
      by (rewrite IH by exact H1; apply Z.div_pos; lia).
    rewrite IH by exact H2. rewrite IH by exact H1. rewrite shr_1_half by exact Hm.
    rewrite !Z.div_div by lia. now rewrite pow2_xI.
  - assert (H2 : (0 <= shr_m (SpecFloat.iter_pos shr_1 n mrs))%Z)
      by (rewrite IH by exact Hm; apply Z.div_pos; lia).
    rewrite IH by exact H2. rewrite IH by exact Hm.
    rewrite !Z.div_div by lia. now rewrite pow2_xO.
  - rewrite shr_1_half by exact Hm. reflexivity.
Qed.

Lemma shr_fexp_pos (p : positive) (e : Z) (l : location) :
  (emin <= e)%Z ->
  (0 < shr_m (fst (shr_fexp prec emax (Z.pos p) e l)))%Z
  /\ (emin <= snd (shr_fexp prec emax (Z.pos p) e l))%Z.
Proof.
  intros He. unfold shr_fexp, shr, fexp. cbn [Zdigits2].
  assert (H0 : shr_m (shr_record_of_loc (Z.pos p) l) = Z.pos p) by now destruct l as [|[]].
  pose proof (digits2_pos_bounds p) as [Hlow _].
  pose proof (eq_refl : prec = 53%Z) as Hprec.
  destruct (Z.max (Z.pos (digits2_pos p) + e - prec) emin - e)%Z as [|n|n] eqn:En;
    cbn [fst snd]; rewrite ?H0; try lia.
  rewrite iter_shr_1_value, H0 by (rewrite H0; lia). split; [|lia].
  apply Z.div_str_pos. split; [apply Z.pow_pos_nonneg; lia|].
  apply Z.le_trans with (2 ^ (Z.pos (digits2_pos p) - 1))%Z; [|exact Hlow].
  apply Z.pow_le_mono_r; lia.
Qed.

Abbreviation signOf :=
  (fun r : spec_float =>
     match r with
     | S754_finite s _ _ | S754_infinity s => if s then (-1)%Z else 1%Z
     | _ => 0%Z
     end).

Lemma binary_round_aux_sign (s : bool) (p : positive) (e : Z) (l : location) :
  (emin <= e)%Z ->
  signOf (binary_round_aux prec emax s (Z.pos p) e l) = if s then (-1)%Z else 1%Z.
Proof.
  intros He. unfold binary_round_aux.
  destruct (shr_fexp_pos p e l He) as [H1 H2].
  destruct (shr_fexp prec emax (Z.pos p) e l) as [mrs' e']. cbn [fst snd] in H1, H2.
  assert (Hr : (0 < round_nearest_even (shr_m mrs') (loc_of_shr_record mrs'))%Z).
  { destruct (loc_of_shr_record mrs') as [|[]]; cbn; [lia | destruct (Z.even _); lia | lia | lia]. }
  destruct (round_nearest_even _ _) as [|p'|p']; try lia.
  destruct (shr_fexp_pos p' e' loc_Exact H2) as [H3 _].
  destruct (shr_fexp prec emax (Z.pos p') e' loc_Exact) as [mrs'' e'']. cbn [fst] in H3.
  destruct (shr_m mrs''); try lia. now destruct (_ <=? _)%Z.
Qed.

(** Rounding an integer at an exponent of a number keeps its sign: nothing
    but zero is rounded to zero. *)
Lemma binary_normalize_sign (d e : Z) :
  (emin <= e)%Z -> signOf (binary_normalize prec emax d e false) = Z.sgn d.
Proof.
  intros He. unfold binary_normalize, binary_round.
  destruct d as [|p|p]; [reflexivity|..].
  all: destruct (shl_align p e _) as [mz ez] eqn:Ea;
    rewrite binary_round_aux_sign; [reflexivity|];
    unfold shl_align, fexp in Ea; destruct (_ - e)%Z in Ea; injection Ea as _ <-; lia.
Qed.

Abbreviation orderOf :=
  (fun c : option comparison =>
     match c with Some Lt => (-1)%Z | Some Gt => 1%Z | _ => 0%Z end).

(** The sign of the difference of the integers that two finite numbers of
    one sign are at their lower exponent. *)
Lemma aligned_difference_sign (m1 m2 : positive) (e1 e2 : Z) :
  bounded prec emax m1 e1 = true -> bounded prec emax m2 e2 = true ->
  Z.sgn (Z.pos (fst (shl_align m1 e1 (Z.min e1 e2))) - Z.pos (fst (shl_align m2 e2 (Z.min e1 e2))))
  = match (e1 ?= e2)%Z with
    | Lt => (-1)%Z
    | Gt => 1%Z
    | Eq => match (m1 ?= m2)%positive with Lt => (-1)%Z | Gt => 1%Z | Eq => 0%Z end
    end.
Proof.
  intros (He1 & Hd1 & Hn1)%bounded_cases (He2 & Hd2 & Hn2)%bounded_cases.
  rewrite !shl_align_value by lia.
  pose proof (digits2_pos_bounds m1) as [Hl1 Hu1].
  pose proof (digits2_pos_bounds m2) as [Hl2 Hu2].
  pose proof (eq_refl : prec = 53%Z) as Hprec.
  assert (Hmono : forall a b, (0 <= a <= b -> 2 ^ a <= 2 ^ b)%Z)
    by (intros; apply Z.pow_le_mono_r; lia).
  destruct (Z.compare_spec e1 e2) as [->|Hlt|Hgt].
  - rewrite Z.min_id, Z.sub_diag, !Z.mul_1_r. destruct (Pos.compare_spec m1 m2); lia.
  - rewrite Z.min_l, Z.sub_diag, Z.mul_1_r by lia.
    specialize (Hn2 ltac:(lia)).
    pose proof (Hmono (Z.pos (digits2_pos m1)) prec ltac:(lia)).
    pose proof (Hmono 1%Z (e2 - e1)%Z ltac:(lia)) as Hs. change (2 ^ 1)%Z with 2%Z in Hs.
    assert (2 ^ prec = 2 * 2 ^ (Z.pos (digits2_pos m2) - 1))%Z
      by (rewrite <- Z.pow_succ_r by lia; f_equal; lia).
    apply Z.sgn_neg. nia.
  - rewrite Z.min_r, Z.sub_diag, Z.mul_1_r by lia.
    specialize (Hn1 ltac:(lia)).
    pose proof (Hmono (Z.pos (digits2_pos m2)) prec ltac:(lia)).
    pose proof (Hmono 1%Z (e1 - e2)%Z ltac:(lia)) as Hs. change (2 ^ 1)%Z with 2%Z in Hs.
    assert (2 ^ prec = 2 * 2 ^ (Z.pos (digits2_pos m1) - 1))%Z
      by (rewrite <- Z.pow_succ_r by lia; f_equal; lia).
    apply Z.sgn_pos. nia.
Qed.

(** The difference of two numbers has the sign of their comparison; it is
    zero, or [NaN], when they compare equal or do not compare. *)
Lemma SFsub_sign (x y : spec_float) :
  valid_binary x = true -> valid_binary y = true ->
  signOf (SFsub prec emax x y) = orderOf (SFcompare x y).
Proof.
  destruct x as [sx|sx| |sx mx ex], y as [sy|sy| |sy my ey]; intros Vx Vy;
    try reflexivity;
    try (destruct sx; reflexivity); try (destruct sy; reflexivity);
    try (destruct sx, sy; reflexivity).
  cbn [valid_binary SFsub SFcompare] in *.
  pose proof (bounded_cases _ _ Vx) as (Hex & _). pose proof (bounded_cases _ _ Vy) as (Hey & _).
  rewrite binary_normalize_sign by lia.
  pose proof (aligned_difference_sign mx my ex ey Vx Vy) as Hd.
  change (Pos.compare_cont Eq mx my) with (mx ?= my)%positive.
  destruct sx, sy; cbn [cond_Zopp].
  - replace (- Z.pos (fst (shl_align mx ex (Z.min ex ey))) - - Z.pos (fst (shl_align my ey (Z.min ex ey))))%Z
      with (- (Z.pos (fst (shl_align mx ex (Z.min ex ey))) - Z.pos (fst (shl_align my ey (Z.min ex ey)))))%Z by lia.
    rewrite Z.sgn_opp, Hd. destruct (ex ?= ey)%Z; [destruct (mx ?= my)%positive|..]; reflexivity.
  - apply Z.sgn_neg. lia.
  - apply Z.sgn_pos. lia.
  - rewrite Hd. destruct (ex ?= ey)%Z; [destruct (mx ?= my)%positive|..]; reflexivity.
Qed.

Lemma sortOrder_sign (v : float) : sortOrder v = signOf (Prim2SF v).
Proof.
  unfold sortOrder. rewrite !FloatAxioms.ltb_spec.
  change (Prim2SF 0) with (S754_zero false).
  now destruct (Prim2SF v) as [[]|[]| |[] ? ?].
Qed.

(** What the sort reads off [x - y] is how [x] compares with [y]. *)
Lemma sortOrder_sub (x y : float) :
  sortOrder (x - y)%float = orderOf (SFcompare (Prim2SF x) (Prim2SF y)).
Proof.
  rewrite sortOrder_sign, sub_spec. apply SFsub_sign; apply Prim2SF_valid.
Qed.

End Differences.


(** ** The order of the numbers *)

Section FloatOrder.

Ltac float_cases x := destruct (Prim2SF x) as [[]|[]| |[] ? ?].

Ltac by_comparisons :=
  unfold SFleb, SFltb, SFeqb, SFcompare;
  repeat match goal with
         | |- context [Z.compare ?a ?b] => destruct (Z.compare_spec a b)
         | |- context [Pos.compare_cont Eq ?a ?b] =>
             change (Pos.compare_cont Eq a b) with (Pos.compare a b);
             destruct (Pos.compare_spec a b)
         end;
  cbn; intros; subst; try reflexivity; try discriminate; try lia.

Lemma leb_refl (x : float) : is_nan x = false -> (x <=? x)%float = true.
Proof.
  rewrite is_nan_spec, FloatAxioms.leb_spec.
  float_cases x; by_comparisons.
Qed.

Lemma ltb_leb (x y : float) : (x <? y)%float = true -> (x <=? y)%float = true.
Proof.
  rewrite FloatAxioms.ltb_spec, FloatAxioms.leb_spec. unfold SFltb, SFleb.
  now destruct (SFcompare _ _) as [[]|].
Qed.

Lemma eqb_leb (x y : float) : (x =? y)%float = true -> (x <=? y)%float = true.
Proof.
  rewrite FloatAxioms.eqb_spec, FloatAxioms.leb_spec. unfold SFeqb, SFleb.
  now destruct (SFcompare _ _) as [[]|].
Qed.

(** Of two numbers, none [NaN], one is below the other. *)
Lemma leb_total (x y : float) :
  is_nan x = false -> is_nan y = false -> (x <? y)%float = false -> (y <=? x)%float = true.
Proof.
  rewrite !is_nan_spec, FloatAxioms.ltb_spec, FloatAxioms.leb_spec.
  float_cases x; float_cases y; by_comparisons.
Qed.

Lemma leb_trans (x y z : float) :
  (x <=? y)%float = true -> (y <=? z)%float = true -> (x <=? z)%float = true.
Proof.
  rewrite !FloatAxioms.leb_spec.
  float_cases x; float_cases y; float_cases z; by_comparisons.
Qed.

Lemma leb_antisym (x y : float) :
  (x <=? y)%float = true -> (y <=? x)%float = true -> (x =? y)%float = true.
Proof.
  rewrite !FloatAxioms.leb_spec, FloatAxioms.eqb_spec.
  float_cases x; float_cases y; by_comparisons.
Qed.

Lemma eqb_sym (x y : float) : (x =? y)%float = (y =? x)%float.
Proof.
  rewrite !FloatAxioms.eqb_spec.
  float_cases x; float_cases y; by_comparisons.
Qed.

Lemma leb_not_nan (x y : float) :
  (x <=? y)%float = true -> is_nan x = false /\ is_nan y = false.
Proof.
  rewrite !is_nan_spec, FloatAxioms.leb_spec.
  float_cases x; float_cases y; by_comparisons; auto.
Qed.

Lemma ltb_infinity (x : float) :
  is_nan x = false -> (x <? infinity)%float = false -> x = infinity.
Proof.
  rewrite is_nan_spec, FloatAxioms.ltb_spec. intros Hn Hlt.
  apply Prim2SF_inj. change (Prim2SF infinity) with (S754_infinity false) in *.
  destruct (Prim2SF x) as [[]|[]| |[] ? ?]; cbn in *; congruence.
Qed.

Lemma ltb_neg_infinity (x : float) :
  is_nan x = false -> (neg_infinity <? x)%float = false -> x = neg_infinity.
Proof.
  rewrite is_nan_spec, FloatAxioms.ltb_spec. intros Hn Hlt.
  apply Prim2SF_inj. change (Prim2SF neg_infinity) with (S754_infinity true) in *.
  destruct (Prim2SF x) as [[]|[]| |[] ? ?]; cbn in *; congruence.
Qed.

End FloatOrder.

(** ** Sorting by a key that is a number *)

Section KeyOrder.

Lemma SFcompare_swap (x y : spec_float) :
  SFcompare y x = option_map CompOpp (SFcompare x y).
Proof.
  destruct x as [[]|[]| |[] m1 e1], y as [[]|[]| |[] m2 e2]; try reflexivity;
    cbn [SFcompare option_map];
    change (Pos.compare_cont Eq ?a ?b) with (Pos.compare a b);
    rewrite (Z.compare_antisym e1 e2), (Pos.compare_antisym m1 m2);
    destruct (e1 ?= e2)%Z, (m1 ?= m2)%positive; reflexivity.
Qed.

(** The comparator [(a, b) => b - a] keeps [a] before [b] unless
    [a < b]. *)
Lemma difference_accepts (a b : float) :
  (sortOrder (b - a)%float <=? 0)%Z = negb (a <? b)%float.
Proof.
  rewrite sortOrder_sub, SFcompare_swap, FloatAxioms.ltb_spec. unfold SFltb.
  now destruct (SFcompare (Prim2SF a) (Prim2SF b)) as [[]|].
Qed.

Lemma difference_of_equals (a b : float) :
  (a =? b)%float = true -> sortOrder (b - a)%float = 0%Z.
Proof.
  rewrite sortOrder_sub, SFcompare_swap, FloatAxioms.eqb_spec. unfold SFeqb.
  now destruct (SFcompare (Prim2SF a) (Prim2SF b)) as [[]|].
Qed.

Lemma not_ltb_leb (a b : float) :
  is_nan a = false -> is_nan b = false -> negb (a <? b)%float = (b <=? a)%float.
Proof.
  intros Ha Hb. destruct (a <? b)%float eqn:Elt; cbn [negb].
  - rewrite FloatAxioms.ltb_spec in Elt. rewrite FloatAxioms.leb_spec.
    unfold SFltb in Elt. unfold SFleb. rewrite SFcompare_swap.
    now destruct (SFcompare (Prim2SF a) (Prim2SF b)) as [[]|].
  - symmetry. now apply leb_total.
Qed.

End KeyOrder.

Section SortByComparator.
Context {A : Type} (cmp : A -> A -> Z).

Abbreviation accepted := (fun a b : A => (cmp a b <= 0)%Z).

(** An array whose neighbours the comparator accepts is left as it is. *)
Lemma Array_sort_fixed (l : list A) : Sorted accepted l -> Array_sort cmp l = l.
Proof.
  induction 1 as [|x l Hs IH Hx]; [reflexivity|].
  cbn. fold (Array_sort cmp l). rewrite IH.
  destruct Hx as [|y l Hxy]; [reflexivity|]. cbn.
  destruct (Z.leb_spec (cmp x y) 0); [reflexivity | lia].
Qed.

Hypothesis cmp_swap : forall x y, (0 < cmp x y -> cmp y x <= 0)%Z.



End SortByComparator.

Section Stability.
Context {A : Type} (cmp : A -> A -> Z) (p : A -> bool).
Hypothesis cmp_class : forall x y, p x = true -> p y = true -> (cmp x y <= 0)%Z.

(** The sort is stable: the elements of a class that the comparator does
    not tell apart keep their order. *)
Lemma sortInsert_stable (x : A) (l : list A) :
  List.filter p (sortInsert cmp x l) = List.filter p (x :: l).
Proof using cmp_class.
  induction l as [|y l IH]; cbn; [done|].
  destruct (Z.leb_spec (cmp x y) 0) as [Hle|Hgt]; [done|].
  cbn in *. rewrite IH.
  destruct (p x) eqn:Hx, (p y) eqn:Hy; try done.
  specialize (cmp_class x y Hx Hy). lia.
Qed.

Lemma Array_sort_stable (l : list A) :
  List.filter p (Array_sort cmp l) = List.filter p l.
Proof using cmp_class.
  induction l as [|x l IH]; cbn; [done|].
  fold (Array_sort cmp l). rewrite sortInsert_stable. cbn. now rewrite IH.
Qed.

End Stability.

Section SortByKey.
Context {A : Type} (key : A -> float).

Abbreviation byKeyDescending := (fun a b : A => sortOrder (key b - key a)%float).
Abbreviation hasKey := (fun a : A => is_nan (key a) = false).

Lemma sortInsert_descending (x : A) (l : list A) :
  hasKey x -> Forall hasKey l ->
  descending key l -> descending key (sortInsert byKeyDescending x l).
Proof.
  unfold descending. intros Hx Hl Hs.
  induction Hs as [|y l Hs IH Hy]; cbn.
  - repeat constructor.
  - apply Forall_cons_1 in Hl as [Hky Hl]. rewrite difference_accepts.
    destruct (key x <? key y)%float eqn:Elt; cbn [negb].
    + constructor; [now apply IH|].
      rewrite sortInsert_perm. constructor; [now apply ltb_leb | exact Hy].
    + assert (Hxy : (key y <=? key x)%float = true) by now apply leb_total.
      constructor; [now constructor|].
      constructor; [exact Hxy|]. eapply Forall_impl; [exact Hy|]. cbn.
      intros z Hz. now apply leb_trans with (key y).
Qed.

(** Of elements whose keys are numbers, the sort makes a list in
    descending order of the key. *)
Lemma Array_sort_descending (l : list A) :
  Forall hasKey l -> descending key (Array_sort byKeyDescending l).
Proof.
  induction 1 as [|x l Hx Hl IH]; cbn; [constructor|].
  apply sortInsert_descending; [exact Hx | | exact IH].
  rewrite List.Forall_forall in *. intros y Hy%Array_sort_In. auto.
Qed.

Lemma descending_after (before after : list A) (x y : A) :
  descending key (before ++ x :: after) -> In y after -> (key y <=? key x)%float = true.
Proof.
  unfold descending. induction before as [|z before IH]; cbn; intros Hs Hy.
  - apply StronglySorted_inv in Hs as [_ Hall].
    rewrite List.Forall_forall in Hall. now apply Hall.
  - apply StronglySorted_inv in Hs as [Hs _]. now apply IH.
Qed.


(** Sorting what is in order already changes nothing. *)
Lemma Array_sort_sorted (l : list A) :
  descending key l -> Array_sort byKeyDescending l = l.
Proof.
  intros Hs. apply Array_sort_fixed. apply StronglySorted_Sorted in Hs.
  induction Hs as [|x l Hs IH Hx]; constructor; [exact IH|].
  destruct Hx as [|y l Hxy]; constructor.
  apply Z.leb_le. rewrite difference_accepts. apply negb_true_iff.
  destruct (leb_not_nan _ _ Hxy) as [Hy Hx].
  rewrite <- (negb_involutive (key x <? key y)%float), not_ltb_leb, Hxy by assumption.
  reflexivity.
Qed.

(** The sort is stable: elements whose keys are equal keep their order. *)
Lemma Array_sort_stable_key (k : float) (l : list A) :
  List.filter (fun y => (key y =? k)%float) (Array_sort byKeyDescending l)
  = List.filter (fun y => (key y =? k)%float) l.
Proof.
  apply Array_sort_stable. intros x y Hx Hy.
  rewrite difference_of_equals; [lia|].
  apply leb_antisym.
  - apply leb_trans with k; [now apply eqb_leb | rewrite eqb_sym in Hy; now apply eqb_leb].
  - apply leb_trans with k; [now apply eqb_leb | rewrite eqb_sym in Hx; now apply eqb_leb].
Qed.

End SortByKey.


(** ** Prices: margin, validity, bulk tiers *)

Section Prices.
Import PriceUtils.

(** C3: for every price and cost price, [calculateProfitMargin] returns
    [round(((price - costPrice) / price) * 100)] when [costPrice > 0] and
    [0] otherwise; [calculateProfitMargin(100, 60)] is [40] and
    [calculateProfitMargin(100, 0)] is [0]. *)
Theorem calculateProfitMargin_spec :
  (forall price costPrice : float,
      calculateProfitMargin price costPrice
      = if (0 <? costPrice)%float
        then Math_round (((price - costPrice) / price) * 100)%float
        else 0%float)
  /\ calculateProfitMargin 100 60 = 40%float
  /\ calculateProfitMargin 100 0 = 0%float.
Proof.
  split; [|split; reflexivity].
  intros price costPrice. unfold calculateProfitMargin.
  rewrite falsy_or_nonpositive. now destruct (0 <? costPrice)%float.
Qed.

(** C2, as the claim has it, fails at [Infinity]: [isValidPrice] accepts a
    number that is not finite. *)
Lemma isValidPrice_accepts_Infinity :
  isValidPrice (JsNumber infinity) = true /\ is_finite infinity = false.
Proof. split; reflexivity. Qed.

(** C2, amended: [isValidPrice(v)] is true if and only if [v] is a number
    that is [+Infinity] or finite and non-negative; [sanitizePrice] returns
    the parsed number when it is valid and [0] whenever it is not;
    [sanitizePrice("abc")] is [0], [sanitizePrice("12.5")] is [12.5], and a
    number followed by other text is read up to that text. *)
Theorem isValidPrice_sanitizePrice_spec :
  (forall v : JsValue,
      isValidPrice v = true <->
      exists x : float,
        v = JsNumber x /\ (x = infinity \/ (is_finite x = true /\ (0 <=? x)%float = true)))
  /\ (forall v : JsValue,
         isValidPrice (JsNumber (parseFloat v)) = false -> sanitizePrice v = 0%float)
  /\ (forall v : JsValue,
         isValidPrice (JsNumber (parseFloat v)) = true -> sanitizePrice v = parseFloat v)
  /\ sanitizePrice (JsString (js "abc")) = 0%float
  /\ sanitizePrice (JsString (js "12.5")) = 12.5%float
  /\ sanitizePrice (JsString (js " 12.5 kg")) = 12.5%float.
Proof.
  split; [|split; [|split; [|repeat split; reflexivity]]].
  - intros v. split.
    + destruct v as [| | |x|]; cbn; try discriminate.
      intros Hv. exists x. split; [reflexivity|]. now apply nonnegative_cases.
    + intros (x & -> & Hx). cbn. now apply nonnegative_cases.
  - intros v Hv. unfold sanitizePrice. now rewrite Hv.
  - intros v Hv. unfold sanitizePrice. now rewrite Hv.
Qed.

Lemma isValidPrice_sanitizePrice_witness :
  sanitizePrice (JsString (js "-3")) = 0%float
  /\ sanitizePrice (JsNumber 7) = parseFloat (JsNumber 7).
Proof.
  split.
  - apply (proj1 (proj2 isValidPrice_sanitizePrice_spec)). reflexivity.
  - apply (proj1 (proj2 (proj2 isValidPrice_sanitizePrice_spec))). reflexivity.
Defined.

(** *** The bulk price *)

Abbreviation byMinQtyDescending :=
  (fun a b : BulkRule => sortOrder (minQty b - minQty a)%float).

Lemma applicableDiscount_none (quantity : float) (rules : list BulkRule) :
  (forall r, In r rules -> (minQty r <=? quantity)%float = false) ->
  applicableDiscount quantity rules = 0%float.
Proof.
  induction rules as [|r rules IH]; cbn; intros Hall; [reflexivity|].
  rewrite (Hall r (or_introl eq_refl)). apply IH. intros r' Hr'. apply Hall. now right.
Qed.

(** The loop stops at the first rule the quantity reaches. *)
Lemma applicableDiscount_first (quantity : float) (rules : list BulkRule) (r0 : BulkRule) :
  In r0 rules -> (minQty r0 <=? quantity)%float = true ->
  exists r before after,
    rules = before ++ r :: after
    /\ (forall r', In r' before -> (minQty r' <=? quantity)%float = false)
    /\ (minQty r <=? quantity)%float = true
    /\ applicableDiscount quantity rules = discount r.
Proof.
  induction rules as [|r rules IH]; cbn; intros Hin Hq; [contradiction|].
  destruct (minQty r <=? quantity)%float eqn:Hr.
  - exists r, [], rules. repeat split; [|exact Hr]. intros r' [].
  - destruct Hin as [->|Hin]; [congruence|].
    destruct (IH Hin Hq) as (r1 & before & after & -> & Hb & Hr1 & Hd).
    exists r1, (r :: before), after. repeat split; [| exact Hr1 | exact Hd].
    intros r' [<-|Hr']; [exact Hr | now apply Hb].
Qed.

(** The head of the rules of one tier, in a list cut at its first rule of
    that tier. *)
Lemma filter_head_split {A : Type} (p : A -> bool) (l : list A) (x : A) (rest : list A) :
  List.filter p l = x :: rest ->
  exists before after,
    l = before ++ x :: after /\ (forall y, In y before -> p y = false).
Proof.
  induction l as [|y l IH]; cbn; [discriminate|].
  destruct (p y) eqn:Hy.
  - intros [= -> _]. exists [], l. split; [reflexivity|]. intros ? [].
  - intros Hf. destruct (IH Hf) as (before & after & -> & Hb).
    exists (y :: before), after. split; [reflexivity|].
    intros z [<-|Hz]; [exact Hy | now apply Hb].
Qed.

Lemma filter_app_head {A : Type} (p : A -> bool) (before after : list A) (x : A) :
  (forall y, In y before -> p y = false) -> p x = true ->
  List.filter p (before ++ x :: after) = x :: List.filter p after.
Proof.
  intros Hb Hx. induction before as [|y before IH]; cbn.
  - now rewrite Hx.
  - rewrite (Hb y (or_introl eq_refl)). apply IH. intros z Hz. apply Hb. now right.
Qed.

(** C6, as the claim has it, fails for a rule whose [minQty] is [NaN]: each
    difference with it is [NaN], which the sort takes for [0], so the array
    [{3, 10}], [{NaN, 0}], [{10, 20}] is left as it is and a quantity of [20]
    gets the discount of the rule of [minQty] [3], though it reaches the
    rule of [minQty] [10]: no rule of the largest [minQty] reached gives the
    price that is returned, [90]. *)
Lemma calculateBulkPrice_NaN_minQty_hides_larger_rule :
  let bulkRules := [ {| minQty := 3; discount := 10 |}; {| minQty := nan; discount := 0 |};
                     {| minQty := 10; discount := 20 |} ] in
  calculateBulkPrice 100 20 bulkRules = (90%float, bulkRules)
  /\ ~ exists r,
         In r bulkRules
         /\ (minQty r <=? 20)%float = true
         /\ (forall r', In r' bulkRules -> (minQty r' <=? 20)%float = true ->
                        (minQty r' <=? minQty r)%float = true)
         /\ fst (calculateBulkPrice 100 20 bulkRules) = (100 * (1 - discount r / 100))%float.
Proof.
  cbv zeta. split; [reflexivity|].
  intros (r & Hin & Hq & Hmax & Hprice).
  destruct Hin as [<-|[<-|[<-|[]]]].
  - specialize (Hmax {| minQty := 10; discount := 20 |}). cbn in Hmax.
    assert (H : (10 <=? 3)%float = true) by (apply Hmax; [tauto | reflexivity]).
    discriminate H.
  - discriminate Hq.
  - apply (f_equal (fun x => (x =? 90)%float)) in Hprice. discriminate Hprice.
Qed.

(** C6, amended: for rules whose [minQty] are numbers, [calculateBulkPrice]
    applies the discount of the rule with the largest [minQty] that the
    quantity reaches (of several rules of that [minQty], the first of the
    list, the sort being stable) and returns
    [basePrice * (1 - discount/100)]; whatever the rules, it returns
    [basePrice] unchanged when the quantity reaches no rule; with the rules
    [{10, 20}], [{3, 10}] a base price of [100] and a quantity of [5] give
    [90]. *)
Theorem calculateBulkPrice_spec (basePrice quantity : float) (bulkRules : list BulkRule) :
  ((forall r, In r bulkRules -> (minQty r <=? quantity)%float = false) ->
   fst (calculateBulkPrice basePrice quantity bulkRules) = basePrice)
  /\ (Forall (fun r => is_nan (minQty r) = false) bulkRules ->
      (exists r, In r bulkRules /\ (minQty r <=? quantity)%float = true) ->
      exists r before after,
        bulkRules = before ++ r :: after
        /\ (minQty r <=? quantity)%float = true
        /\ (forall r', In r' bulkRules -> (minQty r' <=? quantity)%float = true ->
                       (minQty r' <=? minQty r)%float = true)
        /\ (forall r', In r' before -> (minQty r' =? minQty r)%float = false)
        /\ fst (calculateBulkPrice basePrice quantity bulkRules)
           = (basePrice * (1 - discount r / 100))%float)
  /\ fst (calculateBulkPrice 100 5
            [ {| minQty := 10; discount := 20 |}; {| minQty := 3; discount := 10 |} ])
     = 90%float.
Proof.
  split; [|split; [|reflexivity]].
  - intros Hnone. cbn [calculateBulkPrice fst].
    rewrite applicableDiscount_none.
    + change (1 - 0 / 100)%float with 1%float. apply mul_one_r.
    + intros r Hr. apply Hnone. now apply (Array_sort_In byMinQtyDescending).
  - intros Hnumbers (r0 & Hin0 & Hq0). cbn [calculateBulkPrice fst].
    set (sorted := Array_sort byMinQtyDescending bulkRules).
    assert (Hin0' : In r0 sorted) by now apply Array_sort_In.
    destruct (applicableDiscount_first quantity sorted r0 Hin0' Hq0)
      as (r & sb & sa & Hsorted & Hsb & Hr & Hd).
    assert (Hdesc : descending minQty sorted) by now apply Array_sort_descending.
    assert (Hrr : (minQty r <=? minQty r)%float = true).
    { apply leb_refl. now destruct (leb_not_nan _ _ Hr). }
    (* every rule the quantity reaches is no larger than [r] *)
    assert (Hmax : forall r', In r' sorted -> (minQty r' <=? quantity)%float = true ->
                              (minQty r' <=? minQty r)%float = true).
    { intros r' Hr' Hq'. rewrite Hsorted in Hr', Hdesc.
      apply in_app_or in Hr' as [Hr'|[<-|Hr']].
      - specialize (Hsb r' Hr'). congruence.
      - exact Hrr.
      - exact (descending_after minQty sb sa r r' Hdesc Hr'). }
    (* [r] heads its tier in the sorted array, so in the caller's too *)
    assert (Hhead : List.filter (fun y => (minQty y =? minQty r)%float) sorted
                    = r :: List.filter (fun y => (minQty y =? minQty r)%float) sa).
    { rewrite Hsorted. apply filter_app_head.
      - intros y Hy. specialize (Hsb y Hy).
        destruct (minQty y =? minQty r)%float eqn:E; [|reflexivity].
        rewrite <- Hsb. symmetry. apply leb_trans with (minQty r); [now apply eqb_leb | exact Hr].
      - now apply leb_antisym. }
    unfold sorted in Hhead. rewrite (Array_sort_stable_key minQty) in Hhead.
    destruct (filter_head_split _ bulkRules r _ Hhead) as (before & after & Hrules & Hbefore).
    exists r, before, after. repeat split.
    + exact Hrules.
    + exact Hr.
    + intros r' Hr' Hq'. apply Hmax; [|exact Hq']. now apply Array_sort_In.
    + exact Hbefore.
    + fold sorted. now rewrite Hd.
Qed.

Lemma calculateBulkPrice_witness :
  fst (calculateBulkPrice 80 2 [ {| minQty := 10; discount := 20 |} ]) = 80%float
  /\ exists r before after,
       [ {| minQty := 3; discount := 10 |}; {| minQty := 10; discount := 20 |};
         {| minQty := 3; discount := 15 |} ] = before ++ r :: after
       /\ (minQty r <=? 5)%float = true
       /\ (forall r', In r' [ {| minQty := 3; discount := 10 |}; {| minQty := 10; discount := 20 |};
                               {| minQty := 3; discount := 15 |} ] ->
                      (minQty r' <=? 5)%float = true -> (minQty r' <=? minQty r)%float = true)
       /\ (forall r', In r' before -> (minQty r' =? minQty r)%float = false)
       /\ fst (calculateBulkPrice 100 5
                 [ {| minQty := 3; discount := 10 |}; {| minQty := 10; discount := 20 |};
                   {| minQty := 3; discount := 15 |} ])
          = (100 * (1 - discount r / 100))%float.
Proof.
  split.
  - apply (proj1 (calculateBulkPrice_spec 80 2 [ {| minQty := 10; discount := 20 |} ])).
    intros r [<-|[]]. reflexivity.
  - apply (proj1 (proj2 (calculateBulkPrice_spec 100 5 _))).
    + repeat constructor.
    + exists {| minQty := 3; discount := 10 |}. split; [left; reflexivity | reflexivity].
Defined.

(** C4 fails on the code: the call leaves the caller's array sorted by
    descending [minQty]. With the rules [{3, 10}], [{10, 20}] the price is
    [90] and the array then holds [{10, 20}], [{3, 10}]. *)
Theorem calculateBulkPrice_reorders_bulkRules :
  let bulkRules := [ {| minQty := 3; discount := 10 |}; {| minQty := 10; discount := 20 |} ] in
  calculateBulkPrice 100 5 bulkRules
  = (90%float, [ {| minQty := 10; discount := 20 |}; {| minQty := 3; discount := 10 |} ])
  /\ snd (calculateBulkPrice 100 5 bulkRules) <> bulkRules.
Proof.
  split; [reflexivity|]. intros E.
  apply (f_equal (fun l => match l with r :: _ => (minQty r =? 10)%float | [] => false end)) in E.
  discriminate E.
Qed.

(** What the call does keep: the rules themselves, as a permutation, and
    their order when they are already in descending order. *)
Lemma calculateBulkPrice_keeps_elements (basePrice quantity : float) (bulkRules : list BulkRule) :
  snd (calculateBulkPrice basePrice quantity bulkRules) ≡ₚ bulkRules.
Proof. apply Array_sort_perm. Qed.

Lemma calculateBulkPrice_keeps_sorted (basePrice quantity : float) (bulkRules : list BulkRule) :
  descending minQty bulkRules ->
  snd (calculateBulkPrice basePrice quantity bulkRules) = bulkRules.
Proof. apply (Array_sort_sorted minQty). Qed.

End Prices.


(** ** The order list *)

Section OrderList.
Import Orders.
Context `{Host}.

Lemma filter_filter {A : Type} (p q : A -> bool) (l : list A) :
  List.filter q (List.filter p l) = List.filter (fun x => p x && q x) l.
Proof.
  induction l as [|x l IH]; cbn; [reflexivity|].
  destruct (p x); cbn; [destruct (q x)|]; now rewrite IH.
Qed.

(** A filter that is applied only when it is active. *)
Lemma filter_when {A : Type} (active : bool) (p : A -> bool) (l : list A) :
  (if active then List.filter p l else l) = List.filter (fun x => negb active || p x) l.
Proof.
  destruct active; cbn; [reflexivity|].
  induction l as [|x l IH]; cbn; [reflexivity | now rewrite <- IH].
Qed.

Lemma filterOrders_filter (st : State) :
  filteredOrders (filterOrders st) = List.filter (passesFilters st) (orders st).
Proof.
  unfold filterOrders, passesFilters. cbn [filteredOrders setFilteredOrders].
  rewrite !filter_when, !filter_filter, !negb_involutive.
  apply List.filter_ext. intros order. now rewrite !andb_assoc.
Qed.

Lemma truthy_string (s : list N) : truthy (JsString s) = true <-> s <> [].
Proof. destruct s; cbn; split; congruence. Qed.

(** C7: the filtered list is the order list, in its order, cut down to the
    orders that pass every active filter: the search when the term is not
    empty, the status and the payment status when not ["all"], the start and
    the end date when set. With the status filter alone, it holds exactly
    the orders of that status; of three orders [pending], [completed],
    [completed], the filter ["completed"] keeps the last two, and
    [completedOrders] is [2]. *)
Theorem filterOrders_spec (st : State) :
  filteredOrders (filterOrders st) = List.filter (passesFilters st) (orders st)
  /\ (forall order : Order,
         In order (filteredOrders (filterOrders st)) <->
         In order (orders st)
         /\ (searchTerm st <> [] -> matchesSearch (searchTerm st) order = true)
         /\ (statusFilter st <> js "all" -> status order = statusFilter st)
         /\ (paymentFilter st <> js "all" -> paymentStatus order = paymentFilter st)
         /\ (startDate st <> [] ->
             (Date_valueOf (startDate st) <=? Date_valueOf (createdAt order))%float = true)
         /\ (endDate st <> [] ->
             (Date_valueOf (createdAt order) <=? Date_valueOf (endDate st))%float = true))
  /\ (searchTerm st = [] -> paymentFilter st = js "all" -> startDate st = [] -> endDate st = [] ->
      statusFilter st <> js "all" ->
      filteredOrders (filterOrders st)
      = List.filter (fun order => bool_decide (status order = statusFilter st)) (orders st))
  /\ (forall o1 o2 o3 : Order,
         orders st = [o1; o2; o3] ->
         status o1 = js "pending" -> status o2 = js "completed" -> status o3 = js "completed" ->
         searchTerm st = [] -> statusFilter st = js "completed" -> paymentFilter st = js "all" ->
         startDate st = [] -> endDate st = [] ->
         filteredOrders (filterOrders st) = [o2; o3]
         /\ completedOrders (getOrderStats (filterOrders st)) = 2%nat).
Proof.
  split; [apply filterOrders_filter|]. split; [|split].
  - intros order. rewrite filterOrders_filter, List.filter_In. unfold passesFilters.
    rewrite !andb_true_iff, !orb_true_iff, !negb_true_iff, !bool_decide_eq_true.
    rewrite <- !not_true_iff_false, !truthy_string.
    split.
    + intros (Hin & ((((Hs & Hst) & Hp) & Hsd) & Hed)). repeat split; try assumption.
      * intros Hne. destruct Hs as [Hs|Hs]; [now destruct Hs | exact Hs].
      * intros Hne. destruct Hst as [Hst|Hst]; [contradiction | exact Hst].
      * intros Hne. destruct Hp as [Hp|Hp]; [contradiction | exact Hp].
      * intros Hne. destruct Hsd as [Hsd|Hsd]; [now destruct Hsd | exact Hsd].
      * intros Hne. destruct Hed as [Hed|Hed]; [now destruct Hed | exact Hed].
    + intros (Hin & Hs & Hst & Hp & Hsd & Hed). repeat split; try assumption.
      * destruct (decide (searchTerm st = [])) as [E|E]; [left; tauto | right; auto].
      * destruct (decide (statusFilter st = js "all")); [left | right]; auto.
      * destruct (decide (paymentFilter st = js "all")); [left | right]; auto.
      * destruct (decide (startDate st = [])) as [E|E]; [left; tauto | right; auto].
      * destruct (decide (endDate st = [])) as [E|E]; [left; tauto | right; auto].
  - intros Hs Hp Hsd Hed Hst. rewrite filterOrders_filter. apply List.filter_ext.
    intros order. unfold passesFilters. rewrite Hs, Hp, Hsd, Hed. cbn.
    rewrite (bool_decide_eq_false_2 _ Hst). cbn. now rewrite !andb_true_r.
  - intros o1 o2 o3 Ho H1 H2 H3 Hs Hst Hp Hsd Hed.
    assert (Hf : filteredOrders (filterOrders st) = [o2; o3]).
    { rewrite filterOrders_filter, Ho. unfold passesFilters.
      rewrite Hs, Hst, Hp, Hsd, Hed. cbn. now rewrite H1, H2, H3. }
    split; [exact Hf|]. cbn [getOrderStats completedOrders]. rewrite Hf. cbn.
    now rewrite H2, H3.
Qed.

(** *** The revenue *)

Lemma is_zero_eqb_zero (p : float) : is_zero p = true -> (0 =? p)%float = true.
Proof.
  rewrite is_zero_spec, FloatAxioms.eqb_spec.
  change (Prim2SF 0) with (S754_zero false).
  now destruct (Prim2SF p) as [[]|[]| |[] m e].
Qed.

Lemma orderAmount_string (order : Order) (s : list N) :
  totalAmount order = JsString s ->
  orderAmount order
  = if truthyNumber (parseFloatString s) then parseFloatString s else 0%float.
Proof.
  intros E. unfold orderAmount. rewrite E. destruct s as [|c s]; reflexivity.
Qed.

Lemma fold_left_amounts {A : Type} (f : A -> float) (l : list A) (sum0 : float) :
  fold_left (fun sum x => let amount := f x in (sum + amount)%float) l sum0
  = fold_left (fun sum amount => (sum + amount)%float) (List.map f l) sum0.
Proof.
  revert sum0. induction l as [|x l IH]; intros sum0; cbn; [reflexivity | apply IH].
Qed.

(** C8: the revenue is the sum, from [0] and in list order, of what each
    order contributes; a [totalAmount] that is a string contributes the
    number parsed from it, a missing one and one that does not parse
    contribute [0]; a [totalAmount] that is a number contributes itself when
    its decimal form reads back as it, and [0] when it is [NaN] or zero; so
    three orders with [10.5], ["20.25"] and no total add up to [30.75]. *)
Theorem totalRevenue_spec (st : State) :
  totalRevenue (getOrderStats st)
  = fold_left (fun sum amount => (sum + amount)%float)
      (List.map orderAmount (filteredOrders st)) 0%float
  /\ (forall (order : Order) (s : list N),
         totalAmount order = JsString s ->
         is_nan (parseFloatString s) = false ->
         (orderAmount order =? parseFloatString s)%float = true)
  /\ (forall (order : Order) (s : list N),
         totalAmount order = JsString s ->
         is_nan (parseFloatString s) = true ->
         orderAmount order = 0%float)
  /\ (forall order : Order,
         totalAmount order = JsUndefined \/ totalAmount order = JsNull ->
         orderAmount order = 0%float)
  /\ (forall (order : Order) (x : float),
         totalAmount order = JsNumber x ->
         (truthyNumber x = true -> parseFloatString (Number_toString x) = x ->
          orderAmount order = x)
         /\ (truthyNumber x = false -> orderAmount order = 0%float))
  /\ (forall o1 o2 o3 : Order,
         filteredOrders st = [o1; o2; o3] ->
         totalAmount o1 = JsNumber 10.5 -> totalAmount o2 = JsString (js "20.25") ->
         totalAmount o3 = JsUndefined ->
         totalRevenue (getOrderStats st) = 30.75%float).
Proof.
  split; [|split; [|split; [|split; [|split]]]].
  - cbn [getOrderStats totalRevenue]. apply fold_left_amounts.
  - intros order s E Hnan. rewrite (orderAmount_string order s E).
    unfold truthyNumber. rewrite Hnan, orb_false_r.
    destruct (is_zero (parseFloatString s)) eqn:Hz; cbn.
    + now apply is_zero_eqb_zero.
    + unfold is_nan in Hnan. now apply negb_false_iff in Hnan.
  - intros order s E Hnan. rewrite (orderAmount_string order s E).
    unfold truthyNumber. now rewrite Hnan, orb_true_r.
  - intros order [E|E]; unfold orderAmount; now rewrite E.
  - intros order x E. unfold orderAmount. rewrite E. cbn [truthy]. split.
    + intros Hx Hback. rewrite Hx. unfold parseFloat. cbn [ToString].
      now rewrite Hback, Hx.
    + intros Hx. now rewrite Hx.
  - intros o1 o2 o3 Hl E1 E2 E3. cbn [getOrderStats totalRevenue]. rewrite Hl.
    cbn [fold_left]. unfold orderAmount. now rewrite E1, E2, E3.
Qed.

End OrderList.

(** Closed instances of C7 and C8, on the sample host. *)
Lemma filterOrders_witness :
  let o1 := Orders.sampleOrder (js "1") (js "pending") (JsNumber 10.5) in
  let o2 := Orders.sampleOrder (js "2") (js "completed") (JsString (js "20.25")) in
  let o3 := Orders.sampleOrder (js "3") (js "completed") JsUndefined in
  let st := Orders.sampleState [o1; o2; o3] [] (js "completed") in
  Orders.filteredOrders (@Orders.filterOrders sampleHost st) = [o2; o3]
  /\ Orders.completedOrders (Orders.getOrderStats (@Orders.filterOrders sampleHost st)) = 2%nat.
Proof.
  cbv zeta.
  apply (proj2 (proj2 (proj2 (@filterOrders_spec sampleHost _)))
           (Orders.sampleOrder (js "1") (js "pending") (JsNumber 10.5))); reflexivity.
Defined.

Lemma totalRevenue_witness :
  let o1 := Orders.sampleOrder (js "1") (js "pending") (JsNumber 10.5) in
  let o2 := Orders.sampleOrder (js "2") (js "completed") (JsString (js "20.25")) in
  let o3 := Orders.sampleOrder (js "3") (js "completed") JsUndefined in
  Orders.totalRevenue (Orders.getOrderStats (Orders.sampleState [o1; o2; o3] [] (js "all")))
  = 30.75%float
  /\ (Orders.orderAmount o2 =? 20.25)%float = true
  /\ Orders.orderAmount o3 = 0%float.
Proof.
  cbv zeta. split; [|split].
  - apply (proj2 (proj2 (proj2 (proj2 (proj2 (totalRevenue_spec _)))))
             (Orders.sampleOrder (js "1") (js "pending") (JsNumber 10.5))
             (Orders.sampleOrder (js "2") (js "completed") (JsString (js "20.25")))
             (Orders.sampleOrder (js "3") (js "completed") JsUndefined)); reflexivity.
  - apply (proj1 (proj2 (totalRevenue_spec (Orders.sampleState [] [] (js "all"))))
             (Orders.sampleOrder (js "2") (js "completed") (JsString (js "20.25"))) (js "20.25"));
      reflexivity.
  - apply (proj1 (proj2 (proj2 (proj2 (totalRevenue_spec (Orders.sampleState [] [] (js "all"))))))
             (Orders.sampleOrder (js "3") (js "completed") JsUndefined)).
    now left.
Defined.

(** ** Deleting *)

Section Deleting.

(** The order page reads the response: whatever does not resolve with
    [ok], and a dialog that is dismissed, leave the state as it is. *)
Lemma Orders_handleDelete_keeps_state (confirmed : bool) (response : FetchResult)
    (st : Orders.State) (id : list N) :
  confirmed = false \/ response <> Resolves true ->
  fst (Orders.handleDelete confirmed response st id) = st.
Proof.
  intros [-> | Hr]; [reflexivity|].
  unfold Orders.handleDelete. destruct confirmed; [|reflexivity].
  now destruct response as [|[]].
Qed.

Lemma Orders_handleDelete_removes (st : Orders.State) (id : list N) :
  Orders.orders (fst (Orders.handleDelete true (Resolves true) st id))
  = List.filter (fun order => negb (bool_decide (Orders.id order = id))) (Orders.orders st).
Proof. reflexivity. Qed.

(** C5 fails on the product page: a response that resolves without [ok] (a
    404, a 500) still removes the product from the list. *)
Theorem Products_handleDelete_ignores_response_status :
  let row := fun s => {| Products.product := {| Products.id := js s |} |} in
  let st := {| Products.products := [row "p1"%string; row "p2"%string];
               Products.loading := false |} in
  Products.products (fst (Products.handleDelete true (Resolves false) st (js "p1")))
  = [row "p2"%string]
  /\ Orders.orders
       (fst (Orders.handleDelete true (Resolves false)
               (Orders.sampleState [Orders.sampleOrder (js "p1") (js "pending") JsNull] []
                  (js "all")) (js "p1")))
     = [Orders.sampleOrder (js "p1") (js "pending") JsNull].
Proof. split; reflexivity. Qed.

End Deleting.

(** ** Addon titles *)

Section AddonTitles.
Import Orders.

(** C9, as the claim has it, fails when the selection's [addonId] is falsy:
    the catalog is then not searched, though it holds an entry of that
    [id]. *)
Lemma getAddonTitle_skips_catalog_for_empty_addonId :
  let addon := {| addonId := JsString []; addonTitle := JsUndefined;
                  title := JsUndefined; name := JsUndefined |} in
  let entry := {| catalogId := JsString []; catalogTitle := JsString (js "Gift wrap") |} in
  let st := sampleState [] [entry] (js "all") in
  strictEquals (catalogId entry) (addonId addon) = true
  /\ getAddonTitle st addon 0 = JsString (js "Addon 1")
  /\ getAddonTitle st addon 0 <> catalogTitle entry.
Proof. cbv zeta. repeat split. discriminate. Qed.

(** C9, amended: the title is the embedded [addonTitle] if present, else
    the embedded [title], else the embedded [name]; else, provided
    [addonId] is itself present, the title of the first catalog entry whose
    [id] equals it; else the label ["Addon N"] with [N = index + 1]. A
    field is present when it is truthy. *)
Theorem getAddonTitle_spec (st : State) (addon : Addon) (index : float) :
  (truthy (addonTitle addon) = true -> getAddonTitle st addon index = addonTitle addon)
  /\ (truthy (addonTitle addon) = false -> truthy (title addon) = true ->
      getAddonTitle st addon index = title addon)
  /\ (truthy (addonTitle addon) = false -> truthy (title addon) = false ->
      truthy (name addon) = true ->
      getAddonTitle st addon index = name addon)
  /\ (truthy (addonTitle addon) = false -> truthy (title addon) = false ->
      truthy (name addon) = false -> truthy (addonId addon) = true ->
      forall before entry after,
        addons st = before ++ entry :: after ->
        strictEquals (catalogId entry) (addonId addon) = true ->
        (forall a, In a before -> strictEquals (catalogId a) (addonId addon) = false) ->
        getAddonTitle st addon index = catalogTitle entry)
  /\ (truthy (addonTitle addon) = false -> truthy (title addon) = false ->
      truthy (name addon) = false ->
      truthy (addonId addon) = false
      \/ (forall a, In a (addons st) -> strictEquals (catalogId a) (addonId addon) = false) ->
      getAddonTitle st addon index
      = JsString (js "Addon " ++ Number_toString (index + 1)%float))
  /\ Number_toString (0 + 1)%float = js "1".
Proof.
  unfold getAddonTitle. repeat split.
  - now intros ->.
  - now intros -> ->.
  - now intros -> -> ->.
  - intros -> -> -> -> before entry after Hcat Heq Hbefore.
    rewrite Hcat. rewrite length_app. cbn [length].
    replace (0 <? length before + S (length after))%nat with true
      by (symmetry; apply Nat.ltb_lt; lia).
    cbn [andb].
    assert (Hfind : List.find (fun a => strictEquals (catalogId a) (addonId addon))
                      (before ++ entry :: after) = Some entry).
    { clear Hcat. induction before as [|a before IH]; cbn.
      - now rewrite Heq.
      - rewrite (Hbefore a (or_introl eq_refl)). apply IH.
        intros a' Ha'. apply Hbefore. now right. }
    now rewrite Hfind.
  - intros -> -> -> [-> | Hnone]; [reflexivity|].
    destruct (truthy (addonId addon) && (0 <? length (addons st))%nat); [|reflexivity].
    destruct (List.find _ (addons st)) as [entry|] eqn:Hfind; [|reflexivity].
    apply List.find_some in Hfind as [Hin Heq]. now rewrite (Hnone entry Hin) in Heq.
Qed.

Lemma getAddonTitle_witness :
  let entry := {| catalogId := JsString (js "a7"); catalogTitle := JsString (js "Gift wrap") |} in
  let other := {| catalogId := JsString (js "b2"); catalogTitle := JsString (js "Card") |} in
  let st := sampleState [] [other; entry] (js "all") in
  let stored t := {| addonId := JsString (js "a7"); addonTitle := t;
                     title := JsUndefined; name := JsUndefined |} in
  getAddonTitle st (stored (JsString (js "Ribbon"))) 0 = JsString (js "Ribbon")
  /\ getAddonTitle st (stored JsUndefined) 0 = JsString (js "Gift wrap")
  /\ getAddonTitle (sampleState [] [other] (js "all")) (stored JsUndefined) 2
     = JsString (js "Addon " ++ Number_toString (2 + 1)%float).
Proof.
  intros entry other st stored. split; [|split].
  - exact (proj1 (getAddonTitle_spec st (stored (JsString (js "Ribbon"))) 0) eq_refl).
  - apply (proj1 (proj2 (proj2 (proj2 (getAddonTitle_spec st (stored JsUndefined) 0))))
            eq_refl eq_refl eq_refl eq_refl [other] entry []); try reflexivity.
    intros a [<-|[]]. reflexivity.
  - apply (proj1 (proj2 (proj2 (proj2 (proj2
            (getAddonTitle_spec (sampleState [] [other] (js "all")) (stored JsUndefined) 2)))))
            eq_refl eq_refl eq_refl).
    right. intros a [<-|[]]. reflexivity.
Defined.

End AddonTitles.


(** ** Regular expressions: [RegExp_test] decides [Matches] *)

Section RegExpFacts.

Lemma nullable_Matches (r : RegExp) : nullable r = true <-> Matches r [].
Proof.
  split.
  - induction r as [| |p|r1 IH1 r2 IH2|r1 IH1 r2 IH2|r IH]; cbn; intros Hn; try discriminate.
    + constructor.
    + apply andb_prop in Hn as [H1 H2].
      change (@nil N) with (@nil N ++ []). constructor; auto.
    + apply orb_prop in Hn as [H1|H2]; [apply MatchesAltL | apply MatchesAltR]; auto.
    + constructor.
  - remember [] as s eqn:Es. induction 1 as [|p c Hp|r1 r2 s1 s2 _ IH1 _ IH2|r1 r2 s _ IH
                                            |r1 r2 s _ IH| |r s1 s2 _ _ _ _]; cbn;
      try reflexivity; try discriminate.
    + apply app_eq_nil in Es as [-> ->]. now rewrite IH1, IH2.
    + now rewrite IH.
    + rewrite IH by assumption. apply orb_true_r.
Qed.

Lemma Matches_derive (r : RegExp) (c : N) (s : list N) :
  Matches r (c :: s) -> Matches (derive c r) s.
Proof.
  remember (c :: s) as cs eqn:E. intros Hm. revert c s E.
  induction Hm as [|p c' Hp|r1 r2 s1 s2 H1 IH1 H2 IH2|r1 r2 s0 _ IH|r1 r2 s0 _ IH
                  | |r s1 s2 H1 IH1 H2 IH2]; intros c s E; cbn; try discriminate.
  - injection E as -> <-. rewrite Hp. constructor.
  - destruct s1 as [|c1 s1]; cbn in E.
    + subst s2. apply nullable_Matches in H1. rewrite H1.
      apply MatchesAltR. now apply IH2.
    + injection E as -> <-. specialize (IH1 c s1 eq_refl).
      destruct (nullable r1); [apply MatchesAltL|]; now constructor.
  - apply MatchesAltL. now apply IH.
  - apply MatchesAltR. now apply IH.
  - destruct s1 as [|c1 s1]; cbn in E.
    + now apply IH2.
    + injection E as -> <-. constructor; [now apply IH1 | exact H2].
Qed.

Lemma derive_Matches (r : RegExp) (c : N) (s : list N) :
  Matches (derive c r) s -> Matches r (c :: s).
Proof.
  revert s. induction r as [| |p|r1 IH1 r2 IH2|r1 IH1 r2 IH2|r IH]; cbn; intros s Hm.
  - inversion Hm.
  - inversion Hm.
  - destruct (p c) eqn:Hp; inversion Hm; subst. now constructor.
  - assert (Hcat : forall s, Matches (ReCat (derive c r1) r2) s -> Matches (ReCat r1 r2) (c :: s)).
    { intros s' Hs'. inversion Hs' as [| |? ? s1 s2 Ha Hb| | | |]; subst.
      change (c :: s1 ++ s2) with ((c :: s1) ++ s2). constructor; auto. }
    destruct (nullable r1) eqn:Hn; [|now apply Hcat].
    inversion Hm as [| | |? ? ? Ha|? ? ? Hb| |]; subst; [now apply Hcat|].
    change (c :: s) with ([] ++ c :: s). constructor; [now apply nullable_Matches | auto].
  - inversion Hm; subst; [apply MatchesAltL | apply MatchesAltR]; auto.
  - inversion Hm as [| |? ? s1 s2 Ha Hb| | | |]; subst.
    change (c :: s1 ++ s2) with ((c :: s1) ++ s2). constructor; auto.
Qed.

Lemma RegExp_test_spec (r : RegExp) (s : list N) :
  RegExp_test r s = true <-> Matches r s.
Proof.
  revert r. induction s as [|c s IH]; intros r; cbn.
  - apply nullable_Matches.
  - rewrite IH. split; [apply derive_Matches | apply Matches_derive].
Qed.

End RegExpFacts.

(** ** Slugs *)

Section Slugs.
Import PriceUtils.

Lemma Matches_plus_cons (p : N -> bool) (c : N) (s : list N) :
  p c = true -> Matches (ReStar (ReClass p)) s -> Matches (RePlus (ReClass p)) (c :: s).
Proof.
  intros Hc Hs. change (c :: s) with ([c] ++ s). constructor; [now constructor | exact Hs].
Qed.

Lemma Matches_plus_star (p : N -> bool) (s : list N) :
  Matches (RePlus (ReClass p)) s -> Matches (ReStar (ReClass p)) s.
Proof.
  intros Hm. inversion Hm as [| |? ? s1 s2 H1 H2| | | |]; subst. now constructor.
Qed.

(** A slug is a string of [slugRegex]. *)
Lemma Slug_Matches (s : list N) : Slug s -> Matches slugRegex s.
Proof.
  unfold slugRegex. fold isAlnum.
  induction 1 as [c Hc|c s Hc _ IH|c s Hc _ IH].
  - rewrite <- (app_nil_r [c]). constructor; [|constructor].
    apply Matches_plus_cons; [exact Hc | constructor].
  - inversion IH as [| |? ? s1 s2 H1 H2| | | |]; subst.
    change (c :: s1 ++ s2) with ((c :: s1) ++ s2). constructor; [|exact H2].
    apply Matches_plus_cons; [exact Hc | now apply Matches_plus_star].
  - inversion IH as [| |? ? s1 s2 H1 H2| | | |]; subst.
    change (c :: 45%N :: s1 ++ s2) with ([c] ++ (([45%N] ++ s1) ++ s2)).
    constructor; [apply Matches_plus_cons; [exact Hc | constructor]|].
    constructor; [|exact H2].
    constructor; [now constructor | exact H1].
Qed.

Lemma Slug_isValidSlug (s : list N) : Slug s -> isValidSlug s = true.
Proof.
  intros Hs. unfold isValidSlug.
  destruct s as [|c s]; [inversion Hs|].
  now apply RegExp_test_spec, Slug_Matches.
Qed.

Abbreviation isSlugChar := (fun c : N => isAlnum c || isHyphen c).

Lemma isHyphen_eq (c : N) : isHyphen c = true -> c = 45%N.
Proof. apply N.eqb_eq. Qed.

Lemma replaceEach_keeps (p : N -> bool) (s : list N) :
  Forall (fun c => p c = false) (replaceEach p [] s).
Proof.
  induction s as [|c s IH]; cbn; [constructor|].
  destruct (p c) eqn:Hc; [exact IH | now constructor].
Qed.

Lemma replaceRuns_whitespace (s : list N) :
  Forall (fun c => isSlugInput c = true) s ->
  Forall (fun c => isSlugChar c = true) (replaceRuns isWhiteSpace (js "-") s).
Proof.
  change (js "-") with [45%N].
  induction 1 as [|c s Hc _ IH]; cbn [replaceRuns app]; [constructor|].
  destruct (isWhiteSpace c) eqn:Hw.
  - destruct s as [|c' s]; [repeat constructor|].
    destruct (isWhiteSpace c'); [exact IH | now constructor].
  - constructor; [|exact IH].
    unfold isSlugInput in Hc. unfold isAlnum. rewrite Hw, orb_false_r in Hc. exact Hc.
Qed.

Lemma replaceRuns_hyphens (s : list N) :
  Forall (fun c => isSlugChar c = true) s ->
  Forall (fun c => isSlugChar c = true) (replaceRuns isHyphen (js "-") s)
  /\ singleHyphens (replaceRuns isHyphen (js "-") s)
  /\ (forall c s', s = c :: s' -> isHyphen c = false ->
                   exists r, replaceRuns isHyphen (js "-") s = c :: r).
Proof.
  change (js "-") with [45%N].
  induction 1 as [|c s Hc _ (IH1 & IH2 & IH3)]; cbn [replaceRuns app].
  - repeat split; [constructor | discriminate].
  - destruct (isHyphen c) eqn:Hh.
    + destruct s as [|c' s].
      * repeat split; [repeat constructor | congruence].
      * destruct (isHyphen c') eqn:Hh'.
        -- repeat split; [exact IH1 | exact IH2 | congruence].
        -- destruct (IH3 c' s eq_refl Hh') as [r Hr].
           repeat split; [now constructor | | congruence].
           rewrite Hr in *. cbn [singleHyphens].
           split; [intros _; exact Hh' | exact IH2].
    + repeat split.
      * constructor; [now rewrite Hh | exact IH1].
      * destruct (replaceRuns isHyphen [45%N] s) as [|d r]; [exact I|].
        cbn [singleHyphens]. split; [congruence | exact IH2].
      * intros c0 s0 [= <- <-] _. eauto.
Qed.

Lemma singleHyphens_tail (c : N) (s : list N) : singleHyphens (c :: s) -> singleHyphens s.
Proof. destruct s; cbn; tauto. Qed.

Lemma dropWhile_keeps (p : N -> bool) (P : N -> Prop) (s : list N) :
  Forall P s -> singleHyphens s ->
  Forall P (dropWhile p s) /\ singleHyphens (dropWhile p s)
  /\ (forall c s', dropWhile p s = c :: s' -> p c = false).
Proof.
  induction 1 as [|c s Hc Hs IH]; cbn [dropWhile]; intros Hsingle.
  - repeat split; [constructor | discriminate].
  - destruct (p c) eqn:Hp.
    + apply IH. now apply singleHyphens_tail in Hsingle.
    + repeat split; [now constructor | exact Hsingle | now intros ? ? [= <- <-]].
Qed.

(** Cutting the hyphens off the end of what starts with no hyphen leaves a
    slug; off what starts with one, nothing or a hyphen and a slug. *)
Lemma dropWhileEnd_Slug (s : list N) :
  Forall (fun c => isSlugChar c = true) s -> singleHyphens s ->
  (forall c s', s = c :: s' -> isHyphen c = false -> Slug (dropWhileEnd isHyphen s))
  /\ (forall c s', s = c :: s' -> isHyphen c = true ->
      dropWhileEnd isHyphen s = []
      \/ exists r, dropWhileEnd isHyphen s = 45%N :: r /\ Slug r).
Proof.
  induction 1 as [|x s Hx Hs IH]; intros Hsingle; [split; discriminate|].
  specialize (IH (singleHyphens_tail _ _ Hsingle)). destruct IH as [IHa IHh].
  split; intros c s' [= <- <-] Hc; cbn [dropWhileEnd].
  - assert (Hal : isAlnum x = true) by now rewrite Hc, orb_false_r in Hx.
    destruct s as [|d s]; [cbn; rewrite Hc; now constructor|].
    destruct (isHyphen d) eqn:Hd.
    + destruct (IHh d s eq_refl Hd) as [-> | (r & -> & Hr)].
      * rewrite Hc. now constructor.
      * now apply SlugJoin.
    + specialize (IHa d s eq_refl Hd).
      destruct (dropWhileEnd isHyphen (d :: s)) as [|y r] eqn:E; [inversion IHa|].
      now apply SlugMore.
  - apply isHyphen_eq in Hc as Ex. subst x.
    destruct s as [|d s]; [left; reflexivity|].
    destruct Hsingle as [Hd _]. specialize (Hd Hc).
    specialize (IHa d s eq_refl Hd).
    destruct (dropWhileEnd isHyphen (d :: s)) as [|y r] eqn:E; [inversion IHa|].
    right. eauto.
Qed.

Context `{Host}.

(** C10: for every title, [generateSlug] returns the empty string or a
    string that [isValidSlug] accepts: segments of lowercase letters and
    digits joined by single hyphens, with no hyphen at either end. *)
Theorem generateSlug_isValidSlug (t : list N) :
  generateSlug t = [] \/ (isValidSlug (generateSlug t) = true /\ Slug (generateSlug t)).
Proof.
  unfold generateSlug. destruct t as [|c0 t0]; [now left|].
  set (s0 := replaceEach isCombiningMark [] _).
  set (s1 := replaceEach (fun c => negb (isSlugInput c)) [] s0).
  assert (H1 : Forall (fun c => isSlugInput c = true) s1).
  { eapply Forall_impl; [apply replaceEach_keeps|]. cbn. intros c. apply negb_false_iff. }
  apply replaceRuns_whitespace in H1.
  destruct (replaceRuns_hyphens _ H1) as (H2 & H3 & _).
  destruct (dropWhile_keeps isHyphen _ _ H2 H3) as (H4 & H5 & H6).
  unfold stripEnds.
  destruct (dropWhile isHyphen _) as [|c s] eqn:E; [now left|].
  right. specialize (H6 c s eq_refl).
  destruct (dropWhileEnd_Slug _ H4 H5) as [Hslug _].
  specialize (Hslug c s eq_refl H6).
  split; [now apply Slug_isValidSlug | exact Hslug].
Qed.

End Slugs.


(** ** Attribute keys *)

Section AttributeKeys.
Import PriceUtils.

Lemma split_without (sep : N) (w : list N) : ~ In sep w -> split sep w = [w].
Proof.
  induction w as [|c w IH]; cbn; intros Hw; [reflexivity|].
  destruct (N.eqb_spec c sep) as [->|_]; [tauto|].
  rewrite IH by tauto. reflexivity.
Qed.

Lemma split_app (sep : N) (w rest : list N) :
  ~ In sep w -> split sep (w ++ sep :: rest) = w :: split sep rest.
Proof.
  induction w as [|c w IH]; cbn; intros Hw.
  - now rewrite N.eqb_refl.
  - destruct (N.eqb_spec c sep) as [->|_]; [tauto|].
    rewrite IH by tauto. reflexivity.
Qed.

(** Splitting what was joined gives the words back, when there is a word
    and no word holds the separator. *)
Lemma split_join (sep : N) (ws : list (list N)) :
  ws <> [] -> Forall (fun w => ~ In sep w) ws -> split sep (join [sep] ws) = ws.
Proof.
  intros Hne Hall. induction Hall as [|w ws Hw Hws IH]; [congruence|].
  destruct ws as [|w' ws].
  - cbn. now apply split_without.
  - cbn [join]. cbn [app]. rewrite split_app by exact Hw.
    f_equal. now apply IH.
Qed.

Abbreviation pairString := (fun '(key, value) => key ++ js ":" ++ value : list N).

Abbreviation parseStep :=
  (fun (attributes : gmap (list N) (list N)) (pair : list N) =>
     let parts := split 58 pair in
     match parts !! 0%nat, parts !! 1%nat with
     | Some key, Some value =>
         if truthy (JsString key) && truthy (JsString value)
         then setProperty attributes key value
         else attributes
     | _, _ => attributes
     end).

Lemma parseStep_pair (attributes : gmap (list N) (list N)) (entry : list N * list N) :
  roundTrips entry ->
  parseStep attributes (pairString entry) = <[entry.1 := entry.2]> attributes.
Proof.
  destruct entry as [key value]. intros ((Hk & _) & (Hv & _) & Hk0 & Hv0 & Hproto).
  cbn [fst snd] in *. change (js ":") with [58%N]. cbn [app].
  rewrite split_app by exact Hk. rewrite split_without by exact Hv. cbn.
  destruct key as [|? ?]; [congruence|]. destruct value as [|? ?]; [congruence|].
  cbn. unfold setProperty. now rewrite decide_False by exact Hproto.
Qed.

Lemma fold_parseStep (entries : list (list N * list N)) (attributes : gmap (list N) (list N)) :
  Forall roundTrips entries ->
  fold_left parseStep (List.map pairString entries) attributes
  = fold_left (fun a entry => <[entry.1 := entry.2]> a) entries attributes.
Proof.
  intros Hall. revert attributes.
  induction Hall as [|entry entries He _ IH]; intros attributes; [reflexivity|].
  cbn [List.map fold_left]. rewrite parseStep_pair by exact He. apply IH.
Qed.

Lemma fold_insert_list_to_map (entries : list (list N * list N)) (attributes : gmap (list N) (list N)) :
  fold_left (fun a entry => <[entry.1 := entry.2]> a) entries attributes
  = list_to_map (rev entries) ∪ attributes.
Proof.
  revert attributes. induction entries as [|[k v] entries IH]; intros attributes; cbn.
  - now rewrite (left_id_L ∅ (∪)).
  - rewrite IH, list_to_map_app. cbn. rewrite <- (assoc_L (∪)).
    f_equal. now rewrite <- insert_union_l, (left_id_L ∅ (∪)).
Qed.

Lemma pairString_without_bar (entry : list N * list N) :
  roundTrips entry -> ~ In 124%N (pairString entry).
Proof.
  destruct entry as [key value]. intros ((_ & Hk) & (_ & Hv) & _). cbn [fst snd] in *.
  change (js ":") with [58%N]. rewrite !in_app_iff. cbn. intros [?|[[?|[]]|?]]; auto; lia.
Qed.

(** The round trip on the entries an object enumerates, in whatever
    order. *)
Lemma parse_join_entries (m : gmap (list N) (list N)) (entries : list (list N * list N)) :
  entries ≡ₚ map_to_list m -> Forall roundTrips entries ->
  parseAttributeKey (join (js "|") (List.map pairString entries)) = m.
Proof.
  intros Hperm Hall. unfold parseAttributeKey. change (js "|") with [124%N].
  destruct entries as [|entry entries].
  - apply Permutation_nil in Hperm.
    apply map_to_list_empty_iff in Hperm. now subst m.
  - rewrite split_join.
    + rewrite fold_parseStep by exact Hall.
      rewrite fold_insert_list_to_map, (right_id_L ∅ (∪)).
      rewrite <- (list_to_map_to_list m). apply list_to_map_proper.
      * rewrite <- Permutation_rev, Hperm. apply NoDup_fst_map_to_list.
      * now rewrite <- Permutation_rev.
    + discriminate.
    + rewrite List.Forall_forall. intros w Hw. apply in_map_iff in Hw as (e & <- & He).
      apply pairString_without_bar. rewrite List.Forall_forall in Hall. now apply Hall.
Qed.

(** C1, as the claim has it, fails on an empty value: [{color: ""}] is
    written as ["color:"], which [parseAttributeKey] reads as no entry. *)
Lemma parseAttributeKey_drops_empty_value :
  let m : gmap (list N) (list N) := {[ js "color" := [] ]} in
  (forall key value, m !! key = Some value -> separatorFree key /\ separatorFree value)
  /\ @generateAttributeKey sampleHost m = js "color:"
  /\ parseAttributeKey (@generateAttributeKey sampleHost m) = ∅
  /\ parseAttributeKey (@generateAttributeKey sampleHost m) <> m.
Proof.
  cbv zeta.
  assert (Hg : @generateAttributeKey sampleHost {[ js "color" := [] ]} = js "color:").
  { unfold generateAttributeKey. cbn [Object_entries sampleHost].
    now rewrite map_to_list_singleton. }
  split; [|split; [exact Hg|split]].
  - intros key value Hl. apply lookup_singleton_Some in Hl as [<- <-].
    unfold separatorFree. cbn. split; split; intros Hin; intuition discriminate.
  - now rewrite Hg.
  - rewrite Hg. intros E. apply (f_equal (fun m => m !! js "color")) in E.
    rewrite lookup_singleton_eq in E. discriminate E.
Qed.

(** The model's other loss: a key [__proto__] is written, and read back as
    no entry. *)
Lemma parseAttributeKey_drops_proto_key :
  parseAttributeKey (@generateAttributeKey sampleHost {[ js "__proto__" := js "x" ]}) = ∅.
Proof.
  unfold generateAttributeKey. cbn [Object_entries sampleHost].
  now rewrite map_to_list_singleton.
Qed.

Context `{Host}.

(** C1, amended: for every attribute mapping whose keys and values are not
    empty and hold no [:] and no [|], and that has no key [__proto__],
    [parseAttributeKey(generateAttributeKey(m))] is [m]. *)
Theorem parseAttributeKey_generateAttributeKey (m : gmap (list N) (list N)) :
  (forall key value,
      m !! key = Some value ->
      separatorFree key /\ separatorFree value
      /\ key <> [] /\ value <> [] /\ key <> js "__proto__") ->
  parseAttributeKey (generateAttributeKey m) = m.
Proof.
  intros Hm. unfold generateAttributeKey.
  apply parse_join_entries.
  - rewrite Array_sort_perm. apply Object_entries_perm.
  - rewrite List.Forall_forall. intros [key value] Hin.
    apply Array_sort_In, list_elem_of_In in Hin.
    rewrite Object_entries_perm in Hin. apply elem_of_map_to_list in Hin.
    exact (Hm key value Hin).
Qed.

End AttributeKeys.

Lemma parseAttributeKey_generateAttributeKey_witness :
  let m : gmap (list N) (list N) := <[ js "size" := js "m" ]> {[ js "color" := js "red" ]} in
  PriceUtils.parseAttributeKey (@PriceUtils.generateAttributeKey sampleHost m) = m.
Proof.
  cbv zeta. apply (@parseAttributeKey_generateAttributeKey sampleHost).
  intros key value Hl.
  apply lookup_insert_Some in Hl as [[<- <-]|[_ Hl]];
    [|apply lookup_singleton_Some in Hl as [<- <-]];
    unfold PriceUtils.separatorFree; cbn; repeat split; try discriminate;
    intros Hin; intuition discriminate.
Defined.


(** ** [Math.min] and [Math.max] *)

Section MinMax.

Abbreviation notNaN := (fun p : float => is_nan p = false).

Lemma Leibniz_eqb_true (x y : float) : Leibniz.eqb x y = true -> x = y.
Proof. apply FloatAxioms.Leibniz.eqb_spec. Qed.

Lemma Math_min_from_spec (l : list float) (lowest : float) :
  is_nan lowest = false -> Forall notNaN l ->
  (Math_min_from lowest l = lowest \/ In (Math_min_from lowest l) l)
  /\ (Math_min_from lowest l <=? lowest)%float = true
  /\ Forall (fun p => (Math_min_from lowest l <=? p)%float = true) l.
Proof.
  intros Hlow Hl. revert lowest Hlow.
  induction Hl as [|number l Hn _ IH]; intros lowest Hlow; cbn [Math_min_from].
  - repeat split; [now left | now apply leb_refl | constructor].
  - rewrite Hn.
    set (lowest' := if Leibniz.eqb number neg_zero && Leibniz.eqb lowest zero then neg_zero
                    else if (number <? lowest)%float then number else lowest).
    assert (Hstep : (lowest' = lowest \/ lowest' = number)
                    /\ (lowest' <=? lowest)%float = true
                    /\ (lowest' <=? number)%float = true).
    { unfold lowest'.
      destruct (Leibniz.eqb number neg_zero && Leibniz.eqb lowest zero) eqn:Ez.
      - apply andb_prop in Ez as [->%Leibniz_eqb_true ->%Leibniz_eqb_true].
        repeat split; auto.
      - destruct (number <? lowest)%float eqn:Elt.
        + repeat split; [now right | now apply ltb_leb | now apply leb_refl].
        + repeat split; [now left | now apply leb_refl | now apply leb_total]. }
    destruct Hstep as (Hwhich & Hle1 & Hle2).
    assert (Hlow' : is_nan lowest' = false) by now destruct Hwhich as [-> | ->].
    destruct (IH lowest' Hlow') as (Hin & Hle & Hall).
    repeat split.
    + destruct Hin as [Hin|Hin]; [|right; now right].
      rewrite Hin. destruct Hwhich as [-> | ->]; [now left | right; now left].
    + now apply leb_trans with lowest'.
    + constructor; [now apply leb_trans with lowest' | exact Hall].
Qed.

Lemma Math_max_from_spec (l : list float) (highest : float) :
  is_nan highest = false -> Forall notNaN l ->
  (Math_max_from highest l = highest \/ In (Math_max_from highest l) l)
  /\ (highest <=? Math_max_from highest l)%float = true
  /\ Forall (fun p => (p <=? Math_max_from highest l)%float = true) l.
Proof.
  intros Hhigh Hl. revert highest Hhigh.
  induction Hl as [|number l Hn _ IH]; intros highest Hhigh; cbn [Math_max_from].
  - repeat split; [now left | now apply leb_refl | constructor].
  - rewrite Hn.
    set (highest' := if Leibniz.eqb number zero && Leibniz.eqb highest neg_zero then zero
                     else if (highest <? number)%float then number else highest).
    assert (Hstep : (highest' = highest \/ highest' = number)
                    /\ (highest <=? highest')%float = true
                    /\ (number <=? highest')%float = true).
    { unfold highest'.
      destruct (Leibniz.eqb number zero && Leibniz.eqb highest neg_zero) eqn:Ez.
      - apply andb_prop in Ez as [->%Leibniz_eqb_true ->%Leibniz_eqb_true].
        repeat split; auto.
      - destruct (highest <? number)%float eqn:Elt.
        + repeat split; [now right | now apply ltb_leb | now apply leb_refl].
        + repeat split; [now left | now apply leb_refl | now apply leb_total]. }
    destruct Hstep as (Hwhich & Hle1 & Hle2).
    assert (Hhigh' : is_nan highest' = false) by now destruct Hwhich as [-> | ->].
    destruct (IH highest' Hhigh') as (Hin & Hle & Hall).
    repeat split.
    + destruct Hin as [Hin|Hin]; [|right; now right].
      rewrite Hin. destruct Hwhich as [-> | ->]; [now left | right; now left].
    + now apply leb_trans with highest'.
    + constructor; [now apply leb_trans with highest' | exact Hall].
Qed.

(** The least of some numbers, none [NaN], is one of them and below each. *)
Lemma Math_min_spec (l : list float) :
  l <> [] -> Forall notNaN l ->
  In (Math_min l) l /\ Forall (fun p => (Math_min l <=? p)%float = true) l.
Proof.
  intros Hne Hl. destruct (Math_min_from_spec l infinity eq_refl Hl) as (Hin & Hle & Hall).
  split; [|exact Hall]. destruct Hin as [Hinf|Hin]; [|exact Hin].
  destruct l as [|p l]; [congruence|]. left.
  inversion Hall as [|? ? Hp _]; subst. inversion Hl as [|? ? Hnp _]; subst.
  unfold Math_min in *. rewrite Hinf in *.
  apply ltb_infinity; [exact Hnp|].
  destruct (p <? infinity)%float eqn:E; [|reflexivity].
  rewrite FloatAxioms.ltb_spec in E. rewrite FloatAxioms.leb_spec in Hp.
  change (Prim2SF infinity) with (S754_infinity false) in *.
  now destruct (Prim2SF p) as [[]|[]| |[] ? ?].
Qed.

Lemma Math_max_spec (l : list float) :
  l <> [] -> Forall notNaN l ->
  In (Math_max l) l /\ Forall (fun p => (p <=? Math_max l)%float = true) l.
Proof.
  intros Hne Hl. destruct (Math_max_from_spec l neg_infinity eq_refl Hl) as (Hin & Hle & Hall).
  split; [|exact Hall]. destruct Hin as [Hinf|Hin]; [|exact Hin].
  destruct l as [|p l]; [congruence|]. left.
  inversion Hall as [|? ? Hp _]; subst. inversion Hl as [|? ? Hnp _]; subst.
  unfold Math_max in *. rewrite Hinf in *.
  apply ltb_neg_infinity; [exact Hnp|].
  destruct (neg_infinity <? p)%float eqn:E; [|reflexivity].
  rewrite FloatAxioms.ltb_spec in E. rewrite FloatAxioms.leb_spec in Hp.
  change (Prim2SF neg_infinity) with (S754_infinity true) in *.
  now destruct (Prim2SF p) as [[]|[]| |[] ? ?].
Qed.

Lemma Math_min_from_NaN (l : list float) (lowest : float) :
  Exists (fun p => is_nan p = true) l -> Math_min_from lowest l = nan.
Proof.
  intros Hex. revert lowest. induction l as [|p l IH]; intros lowest; [inversion Hex|].
  cbn [Math_min_from]. destruct (is_nan p) eqn:Hp; [reflexivity|].
  apply IH. inversion Hex; subst; [congruence | assumption].
Qed.

Lemma Math_max_from_NaN (l : list float) (highest : float) :
  Exists (fun p => is_nan p = true) l -> Math_max_from highest l = nan.
Proof.
  intros Hex. revert highest. induction l as [|p l IH]; intros highest; [inversion Hex|].
  cbn [Math_max_from]. destruct (is_nan p) eqn:Hp; [reflexivity|].
  apply IH. inversion Hex; subst; [congruence | assumption].
Qed.

End MinMax.


(** ** Decimal digits and [toFixed] *)

Section Decimals.

Abbreviation digitStep := (fun (acc : Z) (c : N) => (10 * acc + Z.of_N (c - 48))%Z).

Lemma uintCodes_digits (d : Decimal.uint) : Forall (fun c => isDigit c = true) (uintCodes d).
Proof. induction d; cbn [uintCodes]; constructor; auto. Qed.

Lemma uintCodes_nil (d : Decimal.uint) : uintCodes d = [] -> d = Decimal.Nil.
Proof. now destruct d. Qed.

Lemma of_uint_acc_digits (d : Decimal.uint) (acc : positive) :
  Z.pos (Pos.of_uint_acc d acc) = fold_left digitStep (uintCodes d) (Z.pos acc).
Proof.
  revert acc. induction d; intros acc; cbn [uintCodes Pos.of_uint_acc fold_left];
    [reflexivity|..]; rewrite IHd; f_equal; cbn; lia.
Qed.

Lemma of_uint_digits (d : Decimal.uint) :
  Z.of_N (Pos.of_uint d) = digitsValue (uintCodes d).
Proof.
  unfold digitsValue.
  induction d; cbn [uintCodes Pos.of_uint fold_left]; [reflexivity| exact IHd |..];
    cbn [Z.of_N]; now rewrite of_uint_acc_digits.
Qed.

Lemma decimalString_digits (n : Z) : Forall (fun c => isDigit c = true) (decimalString n).
Proof. apply uintCodes_digits. Qed.

Lemma decimalString_nonempty (n : Z) : decimalString n <> [].
Proof.
  unfold decimalString. intros E%uintCodes_nil.
  destruct (Z.to_N n) as [|p]; [discriminate|].
  now apply (Unsigned.to_uint_nonnil p).
Qed.

(** The digits of a natural number read as that number. *)
Lemma digitsValue_decimalString (n : Z) : (0 <= n)%Z -> digitsValue (decimalString n) = n.
Proof.
  intros Hn. unfold decimalString. rewrite <- of_uint_digits.
  change (Pos.of_uint (N.to_uint (Z.to_N n))) with (N.of_uint (N.to_uint (Z.to_N n))).
  rewrite DecimalN.Unsigned.of_to. lia.
Qed.

Lemma digitsValue_zeros (k : nat) (ds : list N) :
  digitsValue (List.repeat 48%N k ++ ds) = digitsValue ds.
Proof.
  unfold digitsValue. rewrite fold_left_app. f_equal.
  induction k as [|k IH]; [reflexivity | exact IH].
Qed.

End Decimals.

Section ToFixed.

Abbreviation allDigits := (Forall (fun c : N => isDigit c = true)).

(** The digits [toFixed(2)] writes for the magnitude [v]: some before the
    point, two after it, and read together they are [v * 100] rounded to
    the nearest integer, half a unit going up. *)
Lemma fixed_two_shape (v : Q) :
  (0 <= v)%Q ->
  let n := Qfloor (v * (10 # 1) ^ Z.of_nat 2 + (1 # 2))%Q in
  let m := decimalString n in
  let m' := if (length m <=? 2)%nat then List.repeat 48%N (2 + 1 - length m) ++ m else m in
  exists whole cents,
    take (length m' - 2) m' ++ js "." ++ drop (length m' - 2) m' = whole ++ js "." ++ cents
    /\ whole <> [] /\ allDigits whole /\ length cents = 2%nat /\ allDigits cents
    /\ digitsValue (whole ++ cents) = Qfloor (v * (100 # 1) + (1 # 2))%Q.
Proof.
  intros Hv n m m'.
  assert (Hn : (0 <= n)%Z).
  { change 0%Z with (Qfloor 0). apply Qfloor_resp_le.
    change ((10 # 1) ^ Z.of_nat 2)%Q with ((10 # 1) * (10 # 1))%Q.
    assert (H100 : (0 <= v * ((10 # 1) * (10 # 1)))%Q) by (apply Qmult_le_0_compat; [exact Hv | easy]).
    apply Qle_trans with (v * ((10 # 1) * (10 # 1)))%Q; [exact H100|].
    rewrite <- (Qplus_0_r (v * ((10 # 1) * (10 # 1)))) at 1.
    apply Qplus_le_r. easy. }
  assert (Hm : allDigits m) by apply decimalString_digits.
  assert (Hm0 : m <> []) by apply decimalString_nonempty.
  assert (Hval : digitsValue m = n) by now apply digitsValue_decimalString.
  assert (Hm' : allDigits m' /\ (3 <= length m')%nat /\ digitsValue m' = n).
  { unfold m'. destruct (Nat.leb_spec (length m) 2) as [Hle|Hgt].
    - repeat split.
      + apply Forall_app. split; [|exact Hm].
        apply List.Forall_forall. intros c Hc. apply repeat_spec in Hc. now subst c.
      + rewrite length_app, repeat_length. lia.
      + now rewrite digitsValue_zeros.
    - repeat split; [exact Hm | lia | exact Hval]. }
  destruct Hm' as (Hd & Hlen & Hv').
  exists (take (length m' - 2) m'), (drop (length m' - 2) m').
  repeat split.
  - intros E. apply (f_equal length) in E. rewrite length_take in E. cbn in E. lia.
  - now apply Forall_take.
  - rewrite length_drop. lia.
  - now apply Forall_drop.
  - rewrite take_drop, Hv'. unfold n. apply Qfloor_comp.
    now change ((10 # 1) ^ Z.of_nat 2)%Q with (100 # 1)%Q.
Qed.

(** [x.toFixed(2)] for a finite [x] below [10^21] in magnitude. *)
Lemma toFixed_two_shape (x : float) :
  isFinite x = true -> (magnitude x < (10 # 1) ^ 21)%Q ->
  exists whole cents,
    toFixed x 2 = (if (x <? 0)%float then js "-" else []) ++ whole ++ js "." ++ cents
    /\ whole <> [] /\ allDigits whole /\ length cents = 2%nat /\ allDigits cents
    /\ digitsValue (whole ++ cents) = Qfloor (magnitude x * (100 # 1) + (1 # 2))%Q.
Proof.
  unfold isFinite, magnitude, toFixed. rewrite FloatAxioms.ltb_spec.
  change (Prim2SF 0) with (S754_zero false).
  destruct (Prim2SF x) as [sg| | |sg m e] eqn:E; try discriminate; intros _ Hlt.
  - exists (js "0"), (js "00"). destruct sg; repeat split; try discriminate;
      repeat constructor.
  - assert (Hv : (0 <= inject_Z (Z.pos m) * (2 # 1) ^ e)%Q).
    { apply Qmult_le_0_compat; [easy|]. apply Qpower_0_le. easy. }
    destruct (Qle_bool _ _) eqn:Hbig.
    { apply Qle_bool_iff in Hbig. exfalso. now apply (Qlt_not_le _ _ Hlt). }
    destruct (fixed_two_shape _ Hv) as (whole & cents & Heq & Hrest).
    exists whole, cents. split; [|exact Hrest].
    cbv zeta in Heq. change (2 =? 0)%nat with false. cbv iota.
    rewrite Heq. now destruct sg.
Qed.

End ToFixed.


(** ** Prices: discount, display, range *)

Section PriceDisplays.
Import PriceUtils.

Lemma truthyNumber_not_nan (x : float) : truthyNumber x = true -> is_nan x = false.
Proof. unfold truthyNumber. now destruct (is_zero x), (is_nan x). Qed.

(** With [c] a number, [c <= p] fails when [p < c] and when [p] is [NaN]. *)
Lemma not_leb_cases (p c : float) :
  is_nan c = false -> negb (c <=? p)%float = (p <? c)%float || is_nan p.
Proof.
  rewrite !is_nan_spec, FloatAxioms.leb_spec, FloatAxioms.ltb_spec.
  unfold SFleb, SFltb, SFcompare.
  destruct (Prim2SF p) as [[]|[]| |[] ? ?], (Prim2SF c) as [[]|[]| |[] ? ?];
    try reflexivity; try discriminate; intros _;
    change (Pos.compare_cont Eq ?a ?b) with (Pos.compare a b);
    try rewrite (Z.compare_antisym e e0); try rewrite (Pos.compare_antisym m m0);
    destruct (Z.compare e e0), (Pos.compare m m0); reflexivity.
Qed.

Lemma Math_round_NaN (x : float) : is_nan x = true -> is_nan (Math_round x) = true.
Proof.
  rewrite is_nan_spec. unfold Math_round.
  destruct (Prim2SF x) eqn:E; try discriminate. intros _. now rewrite is_nan_spec, E.
Qed.

Lemma percentage_NaN (p c : float) :
  is_nan p = true -> is_nan (((c - p) / c) * 100)%float = true.
Proof.
  rewrite !is_nan_spec, mul_spec, div_spec, sub_spec.
  destruct (Prim2SF p); try discriminate. intros _.
  now destruct (Prim2SF c) as [[]|[]| |[] ? ?].
Qed.

Lemma discount_guard (price comparePrice : float) :
  calculateDiscountPercentage price comparePrice
  = if truthyNumber comparePrice && ((price <? comparePrice)%float || is_nan price)
    then Math_round (((comparePrice - price) / comparePrice) * 100)%float
    else 0%float.
Proof.
  unfold calculateDiscountPercentage.
  destruct (truthyNumber comparePrice) eqn:Ht; cbn [negb orb andb]; [|reflexivity].
  rewrite <- not_leb_cases by now apply truthyNumber_not_nan.
  now destruct (comparePrice <=? price)%float.
Qed.

(** X1: [calculateDiscountPercentage] computes a percentage only for a
    compare price that is a number, not zero, and above the price, or when
    the price is [NaN]; in every other case it returns [0]. A [NaN] price
    with such a compare price gives [NaN]. *)
Theorem calculateDiscountPercentage_spec (price comparePrice : float) :
  calculateDiscountPercentage price comparePrice
  = (if truthyNumber comparePrice && ((price <? comparePrice)%float || is_nan price)
     then Math_round (((comparePrice - price) / comparePrice) * 100)%float
     else 0%float)
  /\ (truthyNumber comparePrice = true -> is_nan price = true ->
      is_nan (calculateDiscountPercentage price comparePrice) = true).
Proof.
  split; [apply discount_guard|]. intros Ht Hn.
  rewrite discount_guard, Ht, Hn, orb_true_r. cbn [andb].
  now apply Math_round_NaN, percentage_NaN.
Qed.

Lemma calculateDiscountPercentage_spec_witness :
  is_nan (calculateDiscountPercentage nan 100) = true.
Proof. apply (proj2 (calculateDiscountPercentage_spec nan 100)); reflexivity. Defined.

(** X2: what [getPriceDisplay] shows hangs together: savings are shown
    exactly when the product is on sale; an original price exactly when
    there is a compare price that is truthy, and then whenever the product
    is on sale; and off sale the discount is [0], unless the price is
    [NaN]. *)
Theorem getPriceDisplay_consistent (priceData : PriceData.t) :
  let shown := getPriceDisplay priceData in
  (PriceDisplay.savings shown = None <-> PriceDisplay.isOnSale shown = false)
  /\ (PriceDisplay.originalPrice shown = None
      <-> whenTruthy (PriceData.comparePrice priceData) = None)
  /\ (PriceDisplay.isOnSale shown = true -> PriceDisplay.originalPrice shown <> None)
  /\ (PriceDisplay.isOnSale shown = false -> is_nan (PriceData.price priceData) = false ->
      PriceDisplay.discountPercentage shown = 0%float).
Proof.
  cbv zeta. unfold getPriceDisplay. cbn [PriceDisplay.savings PriceDisplay.isOnSale
    PriceDisplay.originalPrice PriceDisplay.discountPercentage].
  destruct (whenTruthy (PriceData.comparePrice priceData)) as [cp|] eqn:Ecp.
  - destruct (PriceData.price priceData <? cp)%float eqn:Elt.
    + repeat split; try discriminate; intros; discriminate.
    + repeat split; try discriminate; try reflexivity.
      intros _ Hn. rewrite discount_guard.
      now rewrite Elt, Hn, andb_false_r.
  - repeat split; try discriminate; reflexivity.
Qed.

Lemma getPriceDisplay_consistent_witness :
  let onSale := {| PriceData.price := 80; PriceData.comparePrice := Some 100%float;
                   PriceData.costPrice := None |} in
  let offSale := {| PriceData.price := 120; PriceData.comparePrice := Some 100%float;
                    PriceData.costPrice := None |} in
  PriceDisplay.originalPrice (getPriceDisplay onSale) <> None
  /\ PriceDisplay.discountPercentage (getPriceDisplay offSale) = 0%float.
Proof.
  cbv zeta. split.
  - apply (proj1 (proj2 (proj2 (getPriceDisplay_consistent _)))). reflexivity.
  - apply (proj2 (proj2 (proj2 (getPriceDisplay_consistent _)))); reflexivity.
Defined.

(** X3: for a finite price below [10^21] in magnitude, [formatPrice]
    writes a [-] when the price is below zero, then at least one digit, a
    point and exactly two digits; the digits read as the magnitude of the
    price in hundredths, rounded to the nearest, half a hundredth going
    up. *)
Theorem formatPrice_two_decimals (price : float) :
  isFinite price = true -> (magnitude price < (10 # 1) ^ 21)%Q ->
  exists whole cents : list N,
    formatPrice price
    = (if (price <? 0)%float then js "-" else []) ++ whole ++ js "." ++ cents
    /\ whole <> []
    /\ Forall (fun c => isDigit c = true) whole
    /\ length cents = 2%nat
    /\ Forall (fun c => isDigit c = true) cents
    /\ digitsValue (whole ++ cents) = Qfloor (magnitude price * (100 # 1) + (1 # 2))%Q.
Proof. apply toFixed_two_shape. Qed.

Lemma formatPrice_two_decimals_witness :
  exists whole cents : list N,
    formatPrice 12.375
    = (if (12.375 <? 0)%float then js "-" else []) ++ whole ++ js "." ++ cents
    /\ whole <> []
    /\ Forall (fun c => isDigit c = true) whole
    /\ length cents = 2%nat
    /\ Forall (fun c => isDigit c = true) cents
    /\ digitsValue (whole ++ cents) = Qfloor (magnitude 12.375 * (100 # 1) + (1 # 2))%Q.
Proof. apply (formatPrice_two_decimals 12.375); reflexivity. Defined.

(** X4: what is not a finite number is written by name, with no decimals:
    [formatPrice] gives [NaN], [Infinity] and [-Infinity]. *)
Theorem formatPrice_not_finite (price : float) :
  isFinite price = false ->
  formatPrice price = js "NaN" \/ formatPrice price = js "Infinity"
  \/ formatPrice price = js "-Infinity".
Proof.
  unfold isFinite, formatPrice, toFixed, Number_toString.
  destruct (Prim2SF price) as [|[]| |]; try discriminate; auto.
Qed.

Lemma formatPrice_not_finite_witness :
  formatPrice nan = js "NaN" \/ formatPrice nan = js "Infinity"
  \/ formatPrice nan = js "-Infinity".
Proof. apply (formatPrice_not_finite nan). reflexivity. Defined.

(** X5: a price of [0] is not guarded against: for every cost price above
    zero, [calculateProfitMargin(0, costPrice)] is [-Infinity]. *)
Theorem calculateProfitMargin_zero_price (costPrice : float) :
  (0 <? costPrice)%float = true -> calculateProfitMargin 0 costPrice = neg_infinity.
Proof.
  intros Hc. unfold calculateProfitMargin. rewrite falsy_or_nonpositive, Hc. cbn [negb].
  assert (Hz : Prim2SF (((0 - costPrice) / 0) * 100)%float = S754_infinity true).
  { rewrite mul_spec, div_spec, sub_spec. rewrite FloatAxioms.ltb_spec in Hc.
    change (Prim2SF 0) with (S754_zero false) in *.
    destruct (Prim2SF 100) as [| | |s100 m100 e100] eqn:E100; try (vm_compute in E100; discriminate).
    assert (s100 = false) as -> by (vm_compute in E100; congruence).
    now destruct (Prim2SF costPrice) as [[]|[]| |[] ? ?]. }
  unfold Math_round. rewrite Hz. apply Prim2SF_inj. now rewrite Hz.
Qed.

Lemma calculateProfitMargin_zero_price_witness :
  calculateProfitMargin 0 60 = neg_infinity.
Proof. apply (calculateProfitMargin_zero_price 60). reflexivity. Defined.

(** X6: of variants whose prices are numbers, [calculatePriceRange]
    returns as [min] and [max] prices of the list, with every price from
    [min] to [max]; it reports a range exactly when two of the prices
    differ. *)
Theorem calculatePriceRange_bounds (variants : list Variant.t) :
  variants <> [] ->
  Forall (fun variant => is_nan (Variant.price variant) = false) variants ->
  let result := calculatePriceRange variants in
  (exists variant, In variant variants /\ Variant.price variant = PriceRange.min result)
  /\ (exists variant, In variant variants /\ Variant.price variant = PriceRange.max result)
  /\ (forall variant, In variant variants ->
        (PriceRange.min result <=? Variant.price variant)%float = true
        /\ (Variant.price variant <=? PriceRange.max result)%float = true)
  /\ (PriceRange.hasRange result = false <->
      forall v w, In v variants -> In w variants ->
                  (Variant.price v =? Variant.price w)%float = true).
Proof.
  intros Hne Hall. cbv zeta.
  set (prices := List.map Variant.price variants).
  assert (Hp : Forall (fun p => is_nan p = false) prices).
  { unfold prices. rewrite List.Forall_forall in *. intros p (v & <- & Hv)%in_map_iff. auto. }
  assert (Hpne : prices <> []) by (unfold prices; now destruct variants).
  destruct (Math_min_spec prices Hpne Hp) as [Hmin_in Hmin].
  destruct (Math_max_spec prices Hpne Hp) as [Hmax_in Hmax].
  assert (Hresult : PriceRange.min (calculatePriceRange variants) = Math_min prices
                    /\ PriceRange.max (calculatePriceRange variants) = Math_max prices
                    /\ PriceRange.hasRange (calculatePriceRange variants)
                       = negb (Math_min prices =? Math_max prices)%float).
  { unfold calculatePriceRange. now destruct variants. }
  destruct Hresult as (-> & -> & ->).
  rewrite List.Forall_forall in Hmin, Hmax.
  assert (Hof : forall v, In v variants -> In (Variant.price v) prices).
  { intros v Hv. unfold prices. now apply in_map. }
  split; [|split; [|split]].
  - apply in_map_iff in Hmin_in as (v & Hv & Hin). eauto.
  - apply in_map_iff in Hmax_in as (v & Hv & Hin). eauto.
  - intros v Hv. split; [apply Hmin | apply Hmax]; auto.
  - rewrite negb_false_iff. split.
    + intros Heq v w Hv Hw.
      assert (Hflat : (Math_max prices <=? Math_min prices)%float = true).
      { rewrite eqb_sym in Heq. now apply eqb_leb. }
      apply leb_antisym.
      * apply leb_trans with (Math_max prices); [now apply Hmax, Hof|].
        apply leb_trans with (Math_min prices); [exact Hflat | now apply Hmin, Hof].
      * apply leb_trans with (Math_max prices); [now apply Hmax, Hof|].
        apply leb_trans with (Math_min prices); [exact Hflat | now apply Hmin, Hof].
    + intros Hsame.
      apply in_map_iff in Hmin_in as (v & <- & Hv).
      apply in_map_iff in Hmax_in as (w & <- & Hw). now apply Hsame.
Qed.

Lemma calculatePriceRange_bounds_witness :
  let variants :=
    [ {| Variant.price := 15; Variant.comparePrice := None |};
      {| Variant.price := 5; Variant.comparePrice := Some 8%float |};
      {| Variant.price := 10; Variant.comparePrice := None |} ] in
  let result := calculatePriceRange variants in
  (exists variant, In variant variants /\ Variant.price variant = PriceRange.min result)
  /\ (exists variant, In variant variants /\ Variant.price variant = PriceRange.max result)
  /\ (forall variant, In variant variants ->
        (PriceRange.min result <=? Variant.price variant)%float = true
        /\ (Variant.price variant <=? PriceRange.max result)%float = true)
  /\ (PriceRange.hasRange result = false <->
      forall v w, In v variants -> In w variants ->
                  (Variant.price v =? Variant.price w)%float = true).
Proof.
  cbv zeta. apply calculatePriceRange_bounds; [discriminate|].
  repeat constructor.
Defined.

(** X7: one price that is [NaN] takes the range over: [min] and [max] are
    [NaN], a range is reported, and it reads [NaN - NaN]. *)
Theorem calculatePriceRange_NaN (variants : list Variant.t) :
  Exists (fun variant => is_nan (Variant.price variant) = true) variants ->
  let result := calculatePriceRange variants in
  PriceRange.min result = nan /\ PriceRange.max result = nan
  /\ PriceRange.hasRange result = true
  /\ PriceRange.range result = js "NaN - NaN".
Proof.
  intros Hex. cbv zeta.
  set (prices := List.map Variant.price variants).
  assert (Hp : Exists (fun p => is_nan p = true) prices).
  { unfold prices. apply List.Exists_exists in Hex as (v & Hv & Hn).
    apply List.Exists_exists. exists (Variant.price v). split; [now apply in_map | exact Hn]. }
  assert (Hmin : Math_min prices = nan) by now apply Math_min_from_NaN.
  assert (Hmax : Math_max prices = nan) by now apply Math_max_from_NaN.
  unfold calculatePriceRange. destruct variants as [|v variants]; [inversion Hex|].
  fold prices. cbn [PriceRange.min PriceRange.max PriceRange.hasRange PriceRange.range].
  rewrite Hmin, Hmax. repeat split.
Qed.

Lemma calculatePriceRange_NaN_witness :
  let variants :=
    [ {| Variant.price := 15; Variant.comparePrice := None |};
      {| Variant.price := nan; Variant.comparePrice := None |} ] in
  let result := calculatePriceRange variants in
  PriceRange.min result = nan /\ PriceRange.max result = nan
  /\ PriceRange.hasRange result = true
  /\ PriceRange.range result = js "NaN - NaN".
Proof.
  cbv zeta. apply calculatePriceRange_NaN. right. left. reflexivity.
Defined.

(** X8: whatever it is given, [sanitizePrice] returns a price that
    [isValidPrice] accepts, so never [NaN] and never a number below zero;
    for [undefined], [null] and the booleans that price is [0]. *)
Theorem sanitizePrice_valid (price : JsValue) :
  isValidPrice (JsNumber (sanitizePrice price)) = true
  /\ is_nan (sanitizePrice price) = false
  /\ (sanitizePrice price <? 0)%float = false
  /\ (match price with JsNumber _ | JsString _ => True | _ => sanitizePrice price = 0%float end).
Proof.
  assert (Hvalid : isValidPrice (JsNumber (sanitizePrice price)) = true).
  { unfold sanitizePrice.
    destruct (isValidPrice (JsNumber (parseFloat price))) eqn:E; [exact E | reflexivity]. }
  split; [exact Hvalid|]. cbn [isValidPrice] in Hvalid.
  apply andb_prop in Hvalid as [Hle Hn]. apply negb_true_iff in Hn.
  repeat split; [exact Hn | | destruct price as [| |[]| |]; try exact I; reflexivity].
  destruct (sanitizePrice price <? 0)%float eqn:Elt; [|reflexivity].
  rewrite FloatAxioms.leb_spec in Hle. rewrite FloatAxioms.ltb_spec in Elt.
  change (Prim2SF 0) with (S754_zero false) in *.
  destruct (Prim2SF (sanitizePrice price)) as [[]|[]| |[] ? ?]; cbn in *; discriminate.
Qed.

End PriceDisplays.


(** ** Slugs: what [isValidSlug] accepts, and [generateSlug] on a slug *)

Section SlugShapes.
Import PriceUtils.

Lemma Matches_star_inv (r : RegExp) (s : list N) :
  Matches (ReStar r) s -> exists ws, Forall (Matches r) ws /\ s = concat ws.
Proof.
  remember (ReStar r) as r' eqn:E. intros Hm. revert r E.
  induction Hm as [|p c Hp|r1 r2 s1 s2 _ _ _ _|r1 r2 s0 _ _|r1 r2 s0 _ _
                  |r0|r0 s1 s2 H1 _ H2 IH2]; intros r E; try discriminate.
  - exists []. split; [constructor | reflexivity].
  - injection E as ->. destruct (IH2 r eq_refl) as (ws & Hws & ->).
    exists (s1 :: ws). split; [now constructor | reflexivity].
Qed.

Lemma Matches_class_inv (p : N -> bool) (s : list N) :
  Matches (ReClass p) s -> exists c, s = [c] /\ p c = true.
Proof. inversion 1; subst; eauto. Qed.

Lemma Matches_class_star (p : N -> bool) (s : list N) :
  Matches (ReStar (ReClass p)) s <-> Forall (fun c => p c = true) s.
Proof.
  split.
  - intros (ws & Hws & ->)%Matches_star_inv.
    induction Hws as [|w ws (c & -> & Hc)%Matches_class_inv _ IH]; cbn; [constructor|].
    now constructor.
  - induction 1 as [|c s Hc _ IH]; [constructor|].
    change (c :: s) with ([c] ++ s). constructor; [now constructor | exact IH].
Qed.

Lemma Matches_class_plus (p : N -> bool) (s : list N) :
  Matches (RePlus (ReClass p)) s <-> s <> [] /\ Forall (fun c => p c = true) s.
Proof.
  split.
  - inversion 1 as [| |? ? s1 s2 H1 H2| | | |]; subst.
    apply Matches_class_inv in H1 as (c & -> & Hc). apply Matches_class_star in H2.
    split; [discriminate | now constructor].
  - intros [Hne Hall]. destruct Hall as [|c s Hc Hs]; [congruence|].
    apply Matches_plus_cons; [exact Hc | now apply Matches_class_star].
Qed.

Abbreviation isSegment := (fun w : list N => w <> [] /\ Forall (fun c => isAlnum c = true) w).

Lemma join_hyphen (w : list N) (ws : list (list N)) :
  join (js "-") (w :: ws) = w ++ concat (List.map (fun w' => 45%N :: w') ws).
Proof.
  revert w. induction ws as [|w' ws IH]; intros w.
  - cbn. now rewrite app_nil_r.
  - change (join (js "-") (w :: w' :: ws)) with (w ++ js "-" ++ join (js "-") (w' :: ws)).
    rewrite IH. reflexivity.
Qed.

(** The strings of [slugRegex] are the segments joined by hyphens. *)
Lemma slugRegex_segments (s : list N) :
  Matches slugRegex s <->
  exists segments, segments <> [] /\ Forall isSegment segments /\ s = join (js "-") segments.
Proof.
  unfold slugRegex. fold isAlnum. split.
  - inversion 1 as [| |? ? s1 s2 H1 H2| | | |]; subst.
    apply Matches_class_plus in H1. apply Matches_star_inv in H2 as (ws & Hws & ->).
    assert (Hgroups : exists segs, Forall isSegment segs
                                   /\ concat ws = concat (List.map (fun w' => 45%N :: w') segs)).
    { clear H H1. induction Hws as [|w ws Hw _ (segs & Hsegs & Heq)]; [now exists []|].
      inversion Hw as [| |? ? h seg Hh Hseg| | | |]; subst.
      apply Matches_class_inv in Hh as (c & -> & Hc%isHyphen_eq). subst c.
      apply Matches_class_plus in Hseg.
      exists (seg :: segs). split; [now constructor|]. cbn. now rewrite Heq. }
    destruct Hgroups as (segs & Hsegs & Heq).
    exists (s1 :: segs). split; [discriminate|]. split; [now constructor|].
    now rewrite join_hyphen, Heq.
  - intros (segments & Hne & Hall & ->).
    destruct Hall as [|w ws Hw Hws]; [congruence|].
    rewrite join_hyphen. constructor; [now apply Matches_class_plus|].
    clear Hne Hw. induction Hws as [|w' ws Hw' _ IH]; cbn; [constructor|].
    change (45%N :: w' ++ ?rest) with ((45%N :: w') ++ rest). constructor; [|exact IH].
    change (45%N :: w') with ([45%N] ++ w').
    constructor; [now constructor | now apply Matches_class_plus].
Qed.

(** X9: [isValidSlug] accepts exactly the strings made of one or more
    segments joined by single hyphens, a segment being one or more of the
    characters [a-z] and [0-9]. *)
Theorem isValidSlug_segments (slug : list N) :
  isValidSlug slug = true <->
  exists segments : list (list N),
    segments <> []
    /\ Forall (fun w => w <> [] /\ Forall (fun c => isAlnum c = true) w) segments
    /\ slug = join (js "-") segments.
Proof.
  rewrite <- slugRegex_segments. unfold isValidSlug.
  destruct slug as [|c slug]; [|apply RegExp_test_spec].
  split; [discriminate|]. intros (segments & Hne & Hall & Heq)%slugRegex_segments.
  destruct Hall as [|w ws [Hw _] _]; [congruence|].
  rewrite join_hyphen in Heq. symmetry in Heq. apply app_eq_nil in Heq as [-> _]. congruence.
Qed.

Ltac to_numbers :=
  repeat first [ rewrite andb_true_iff in * | rewrite orb_true_iff in *
               | rewrite N.leb_le in * | rewrite N.eqb_eq in * ].

Lemma isAlnum_not_hyphen (c : N) : isAlnum c = true -> isHyphen c = false.
Proof.
  unfold isAlnum, isLowerAZ, isDigit, isHyphen. intros Hc.
  apply not_true_is_false. intros Hh. to_numbers. lia.
Qed.

Lemma slugChar_not_space (c : N) : isAlnum c || isHyphen c = true -> isWhiteSpace c = false.
Proof.
  unfold isAlnum, isLowerAZ, isDigit, isHyphen, isWhiteSpace. intros Hc.
  apply not_true_is_false. intros Hw. to_numbers. lia.
Qed.

Lemma slugChar_not_mark (c : N) : isAlnum c || isHyphen c = true -> isCombiningMark c = false.
Proof.
  unfold isAlnum, isLowerAZ, isDigit, isHyphen, isCombiningMark. intros Hc.
  apply not_true_is_false. intros Hw. to_numbers. lia.
Qed.

Lemma slugChar_input (c : N) : isAlnum c || isHyphen c = true -> isSlugInput c = true.
Proof.
  unfold isSlugInput, isAlnum. intros [->| ->]%orb_prop; [reflexivity | apply orb_true_r].
Qed.

Lemma Slug_chars (s : list N) : Slug s -> Forall (fun c => isAlnum c || isHyphen c = true) s.
Proof.
  induction 1 as [c Hc|c s Hc _ IH|c s Hc _ IH]; repeat constructor; auto;
    now rewrite Hc.
Qed.

Lemma Slug_head (s : list N) : Slug s -> exists c r, s = c :: r /\ isAlnum c = true.
Proof. destruct 1; eauto. Qed.

Lemma segment_Slug (w : list N) :
  isSegment w -> Slug w /\ forall t, Slug t -> Slug (w ++ 45%N :: t).
Proof.
  intros [Hne Hall]. induction Hall as [|c w Hc Hw IH]; [congruence|].
  destruct w as [|c' w].
  - split; [now constructor|]. intros t Ht. now apply SlugJoin.
  - destruct IH as [IH1 IH2]; [discriminate|].
    split; [now apply SlugMore|]. intros t Ht. cbn. apply SlugMore; [exact Hc|]. now apply IH2.
Qed.

Lemma segments_Slug (segments : list (list N)) :
  segments <> [] -> Forall isSegment segments -> Slug (join (js "-") segments).
Proof.
  intros Hne Hall. induction Hall as [|w ws Hw Hws IH]; [congruence|].
  destruct ws as [|w' ws]; [now apply segment_Slug|].
  change (join (js "-") (w :: w' :: ws)) with (w ++ 45%N :: join (js "-") (w' :: ws)).
  apply segment_Slug; [exact Hw|]. now apply IH.
Qed.

Lemma isValidSlug_Slug (s : list N) : isValidSlug s = true <-> Slug s.
Proof.
  split; [|apply Slug_isValidSlug].
  intros Hs. unfold isValidSlug in Hs. destruct s as [|c s]; [discriminate|].
  apply RegExp_test_spec, slugRegex_segments in Hs as (segments & Hne & Hall & ->).
  now apply segments_Slug.
Qed.

Lemma replaceEach_none (p : N -> bool) (by' s : list N) :
  Forall (fun c => p c = false) s -> replaceEach p by' s = s.
Proof. induction 1 as [|c s Hc _ IH]; cbn; [reflexivity|]. now rewrite Hc, IH. Qed.

Lemma replaceRuns_none (p : N -> bool) (by' s : list N) :
  Forall (fun c => p c = false) s -> replaceRuns p by' s = s.
Proof. induction 1 as [|c s Hc _ IH]; cbn; [reflexivity|]. now rewrite Hc, IH. Qed.

Lemma dropWhile_none (p : N -> bool) (s : list N) :
  Forall (fun c => p c = false) s -> dropWhile p s = s.
Proof. destruct 1 as [|c s Hc _]; cbn; [reflexivity|]. now rewrite Hc. Qed.

Lemma dropWhileEnd_none (p : N -> bool) (s : list N) :
  Forall (fun c => p c = false) s -> dropWhileEnd p s = s.
Proof.
  induction 1 as [|c s Hc _ IH]; cbn; [reflexivity|]. rewrite IH, Hc. now destruct s.
Qed.

Lemma Slug_single_hyphens (s : list N) : Slug s -> replaceRuns isHyphen (js "-") s = s.
Proof.
  change (js "-") with [45%N].
  induction 1 as [c Hc|c s Hc _ IH|c s Hc Hs IH]; cbn [replaceRuns];
    rewrite (isAlnum_not_hyphen c Hc).
  - reflexivity.
  - now rewrite IH.
  - destruct (Slug_head s Hs) as (d & r & -> & Hd).
    cbn [replaceRuns] in *. change (isHyphen 45) with true. cbn iota.
    rewrite (isAlnum_not_hyphen d Hd) in *. cbn [app]. now rewrite IH.
Qed.

Lemma Slug_no_hyphen_at_end (s : list N) : Slug s -> dropWhileEnd isHyphen s = s.
Proof.
  induction 1 as [c Hc|c s Hc Hs IH|c s Hc Hs IH]; cbn [dropWhileEnd].
  - now rewrite (isAlnum_not_hyphen c Hc).
  - rewrite IH. destruct (Slug_head s Hs) as (d & r & -> & _). reflexivity.
  - rewrite IH. destruct (Slug_head s Hs) as (d & r & -> & _). reflexivity.
Qed.

Lemma Slug_no_hyphen_at_start (s : list N) : Slug s -> dropWhile isHyphen s = s.
Proof.
  intros (c & r & -> & Hc)%Slug_head. cbn. now rewrite (isAlnum_not_hyphen c Hc).
Qed.

Context `{Host}.

(** The slug of a slug that the host's case mapping and decomposition
    leave alone. *)
Lemma generateSlug_Slug_fixed (s : list N) :
  Slug s -> toLowerCase s = s -> normalizeNFD s = s -> generateSlug s = s.
Proof.
  intros Hs Hlower Hnfd. unfold generateSlug.
  destruct s as [|c0 r0]; [inversion Hs|]. cbv iota.
  set (s := c0 :: r0) in *.
  pose proof (Slug_chars s Hs) as Hchars.
  assert (Hspace : Forall (fun c => isWhiteSpace c = false) s).
  { eapply Forall_impl; [exact Hchars|]. apply slugChar_not_space. }
  assert (Htrim : trim s = s).
  { unfold trim, trimStart, trimEnd. now rewrite dropWhile_none, dropWhileEnd_none. }
  rewrite Hlower, Htrim, Hnfd.
  rewrite (replaceEach_none isCombiningMark)
    by (eapply Forall_impl; [exact Hchars|]; apply slugChar_not_mark).
  rewrite (replaceEach_none (fun c => negb (isSlugInput c)))
    by (eapply Forall_impl; [exact Hchars|]; cbn; intros c Hc;
        now rewrite (slugChar_input c Hc)).
  rewrite (replaceRuns_none isWhiteSpace) by exact Hspace.
  rewrite Slug_single_hyphens by exact Hs.
  unfold stripEnds. rewrite Slug_no_hyphen_at_start by exact Hs.
  now apply Slug_no_hyphen_at_end.
Qed.

(** What [generateSlug] returns is empty or a slug. *)
Lemma generateSlug_Slug (t : list N) : generateSlug t = [] \/ Slug (generateSlug t).
Proof.
  unfold generateSlug. destruct t as [|c0 t0]; [now left|].
  set (s0 := replaceEach isCombiningMark [] _).
  set (s1 := replaceEach (fun c => negb (isSlugInput c)) [] s0).
  assert (H1 : Forall (fun c => isSlugInput c = true) s1).
  { eapply Forall_impl; [apply replaceEach_keeps|]. cbn. intros c. apply negb_false_iff. }
  apply replaceRuns_whitespace in H1.
  destruct (replaceRuns_hyphens _ H1) as (H2 & H3 & _).
  destruct (dropWhile_keeps isHyphen _ _ H2 H3) as (H4 & H5 & H6).
  unfold stripEnds.
  destruct (dropWhile isHyphen _) as [|c s] eqn:E; [now left|].
  right. specialize (H6 c s eq_refl).
  destruct (dropWhileEnd_Slug _ H4 H5) as [Hslug _].
  exact (Hslug c s eq_refl H6).
Qed.

(** X10: a valid slug is its own slug: [generateSlug] returns a string that
    [isValidSlug] accepts as it is, on a host whose [toLowerCase] and
    [normalize('NFD')] leave that string as it is (as they leave every
    string of [a-z], [0-9] and [-]). *)
Theorem generateSlug_fixes_valid_slugs (slug : list N) :
  isValidSlug slug = true -> toLowerCase slug = slug -> normalizeNFD slug = slug ->
  generateSlug slug = slug.
Proof. intros Hs%isValidSlug_Slug. now apply generateSlug_Slug_fixed. Qed.

(** X11: [generateSlug] is idempotent: the slug of a slug it made is that
    slug, on a host whose [toLowerCase] and [normalize('NFD')] leave the
    slug as it is. *)
Theorem generateSlug_idempotent (title : list N) :
  toLowerCase (generateSlug title) = generateSlug title ->
  normalizeNFD (generateSlug title) = generateSlug title ->
  generateSlug (generateSlug title) = generateSlug title.
Proof.
  intros Hlower Hnfd. destruct (generateSlug_Slug title) as [E|Hs].
  - rewrite E. reflexivity.
  - now apply generateSlug_Slug_fixed.
Qed.

End SlugShapes.

Lemma generateSlug_fixes_valid_slugs_witness :
  @PriceUtils.generateSlug sampleHost (js "blue-shirt-2") = js "blue-shirt-2".
Proof. apply (@generateSlug_fixes_valid_slugs sampleHost (js "blue-shirt-2")); reflexivity. Defined.

Lemma generateSlug_idempotent_witness :
  @PriceUtils.generateSlug sampleHost (@PriceUtils.generateSlug sampleHost (js "  Blue  Shirt -- 2 "))
  = @PriceUtils.generateSlug sampleHost (js "  Blue  Shirt -- 2 ").
Proof. apply (@generateSlug_idempotent sampleHost (js "  Blue  Shirt -- 2 ")); reflexivity. Defined.


(** ** Attribute keys: what parsing returns, and one more pair *)

Section ParsedKeys.
Import PriceUtils.

Abbreviation pairString := (fun '(key, value) => key ++ js ":" ++ value : list N).

Abbreviation parseStep :=
  (fun (attributes : gmap (list N) (list N)) (pair : list N) =>
     let parts := split 58 pair in
     match parts !! 0%nat, parts !! 1%nat with
     | Some key, Some value =>
         if truthy (JsString key) && truthy (JsString value)
         then setProperty attributes key value
         else attributes
     | _, _ => attributes
     end).

Lemma split_nonempty (sep : N) (s : list N) : split sep s <> [].
Proof.
  destruct s as [|c s]; cbn; [discriminate|].
  destruct (c =? sep)%N; [discriminate|]. now destruct (split sep s).
Qed.

(** The words of a split hold no separator, and only characters of the
    string. *)
Lemma split_words (sep : N) (s : list N) :
  Forall (fun w => ~ In sep w /\ forall c, In c w -> In c s) (split sep s).
Proof.
  induction s as [|c s IH]; cbn [split].
  - repeat constructor; auto.
  - destruct (N.eqb_spec c sep) as [->|Hne].
    + constructor; [split; [intros [] | intros ? []]|].
      eapply Forall_impl; [exact IH|]. cbn. intros w [Hw Hsub].
      split; [exact Hw|]. intros c Hc. right. auto.
    + destruct (split sep s) as [|w ws].
      { constructor; [|constructor]. split; [intros [?|[]]; congruence|].
        intros c' [<-|[]]. now left. }
      inversion IH as [|? ? [Hw Hsub] Hws]; subst. constructor.
      * split; [cbn; intuition congruence|]. intros c' [<-|Hc']; [now left | right; auto].
      * eapply Forall_impl; [exact Hws|]. cbn. intros w' [Hw' Hsub'].
        split; [exact Hw'|]. intros c' Hc'. right. auto.
Qed.

Lemma split_snoc (sep : N) (s w : list N) :
  ~ In sep w -> split sep (s ++ sep :: w) = split sep s ++ [w].
Proof.
  intros Hw. induction s as [|c s IH]; cbn [app split].
  - rewrite N.eqb_refl. now rewrite split_without.
  - rewrite IH. destruct (c =? sep)%N; [reflexivity|].
    pose proof (split_nonempty sep s) as Hne. now destruct (split sep s).
Qed.

Lemma lookup_In {A : Type} (l : list A) (i : nat) (x : A) : l !! i = Some x -> In x l.
Proof. intros Hl. apply list_elem_of_In. eapply list_elem_of_lookup_2. exact Hl. Qed.

Lemma parseStep_roundTrips (attributes : gmap (list N) (list N)) (pair : list N) :
  ~ In 124%N pair ->
  map_Forall (fun key value => roundTrips (key, value)) attributes ->
  map_Forall (fun key value => roundTrips (key, value)) (parseStep attributes pair).
Proof.
  intros Hbar Hall. cbv zeta.
  pose proof (split_words 58 pair) as Hwords. rewrite List.Forall_forall in Hwords.
  destruct (split 58 pair !! 0%nat) as [key|] eqn:Ek; [|exact Hall].
  destruct (split 58 pair !! 1%nat) as [value|] eqn:Ev; [|exact Hall].
  destruct (truthy (JsString key) && truthy (JsString value)) eqn:Et; [|exact Hall].
  apply andb_prop in Et as [Hk%truthy_string Hv%truthy_string].
  unfold setProperty. destruct (decide (key = js "__proto__")) as [|Hproto]; [exact Hall|].
  apply map_Forall_insert_2; [|exact Hall].
  destruct (Hwords key (lookup_In _ _ _ Ek)) as [Hk1 Hk2].
  destruct (Hwords value (lookup_In _ _ _ Ev)) as [Hv1 Hv2].
  unfold roundTrips, separatorFree. cbn [fst snd]. repeat split; auto.
Qed.

(** What [parseAttributeKey] returns can be written and read back. *)
Lemma parseAttributeKey_roundTrips (attributeKey : list N) :
  map_Forall (fun key value => roundTrips (key, value)) (parseAttributeKey attributeKey).
Proof.
  unfold parseAttributeKey.
  pose proof (split_words 124 attributeKey) as Hwords.
  assert (Hinit : map_Forall (fun key value => roundTrips (key, value))
                    (∅ : gmap (list N) (list N))) by apply map_Forall_empty.
  revert Hinit. generalize (∅ : gmap (list N) (list N)).
  induction Hwords as [|pair pairs [Hpair _] _ IH]; intros attributes Hall; [exact Hall|].
  cbn [fold_left]. apply IH. now apply parseStep_roundTrips.
Qed.

(** X12: every entry of what [parseAttributeKey] returns has a key and a
    value that are not empty and hold no [:] and no [|], and its key is not
    [__proto__], whatever string is parsed. *)
Theorem parseAttributeKey_entries (attributeKey : list N) :
  map_Forall
    (fun key value =>
       key <> [] /\ value <> [] /\ key <> js "__proto__"
       /\ ~ In 58%N key /\ ~ In 124%N key /\ ~ In 58%N value /\ ~ In 124%N value)
    (parseAttributeKey attributeKey).
Proof.
  eapply map_Forall_impl; [apply parseAttributeKey_roundTrips|].
  intros key value ((? & ?) & (? & ?) & ? & ? & ?). cbn [fst snd] in *. tauto.
Qed.

(** X13: adding a pair at the end of a key adds it to what is parsed, over
    an earlier pair of the same key: for a key and a value that are not
    empty and hold no separator, the key not [__proto__], parsing
    [attributeKey|key:value] gives the attributes of [attributeKey] with
    [key] set to [value]. *)
Theorem parseAttributeKey_append (attributeKey key value : list N) :
  roundTrips (key, value) ->
  parseAttributeKey (attributeKey ++ js "|" ++ key ++ js ":" ++ value)
  = <[key := value]> (parseAttributeKey attributeKey).
Proof.
  intros Hentry. unfold parseAttributeKey.
  change (js "|" ++ key ++ js ":" ++ value) with (124%N :: pairString (key, value)).
  rewrite split_snoc by exact (pairString_without_bar (key, value) Hentry).
  rewrite fold_left_app. cbn [fold_left].
  exact (parseStep_pair _ (key, value) Hentry).
Qed.

Context `{Host}.

(** X14: parsing settles a key: written again by [generateAttributeKey],
    what [parseAttributeKey] returned is read back as it was, whatever
    string it came from. *)
Theorem parseAttributeKey_regenerate (attributeKey : list N) :
  parseAttributeKey (generateAttributeKey (parseAttributeKey attributeKey))
  = parseAttributeKey attributeKey.
Proof.
  unfold generateAttributeKey at 1. apply parse_join_entries.
  - rewrite Array_sort_perm. apply Object_entries_perm.
  - rewrite List.Forall_forall. intros [key value] Hin.
    apply Array_sort_In, list_elem_of_In in Hin.
    rewrite Object_entries_perm in Hin. apply elem_of_map_to_list in Hin.
    exact (parseAttributeKey_roundTrips attributeKey key value Hin).
Qed.

End ParsedKeys.

Lemma parseAttributeKey_append_witness :
  PriceUtils.parseAttributeKey (js "color:red|size:m" ++ js "|" ++ js "color" ++ js ":" ++ js "blue")
  = <[js "color" := js "blue"]> (PriceUtils.parseAttributeKey (js "color:red|size:m")).
Proof.
  apply (parseAttributeKey_append (js "color:red|size:m") (js "color") (js "blue")).
  unfold PriceUtils.roundTrips, PriceUtils.separatorFree. cbn.
  repeat split; try discriminate; intros Hin; intuition discriminate.
Defined.

(** ** The bulk price: a second call, and the order of the rules *)

Section BulkRules.
Import PriceUtils.

Abbreviation byMinQtyDescending :=
  (fun a b : BulkRule => sortOrder (minQty b - minQty a)%float).

Abbreviation differentKeys :=
  (fun key : BulkRule -> float => fun a b : BulkRule => (key a =? key b)%float = false).

Lemma differentKeys_perm (key : BulkRule -> float) (l l' : list BulkRule) :
  l ≡ₚ l' -> ForallOrdPairs (differentKeys key) l -> ForallOrdPairs (differentKeys key) l'.
Proof.
  induction 1 as [|x l l' Hperm IH|x y l|l l' l'' _ IH1 _ IH2]; intros Hl.
  - exact Hl.
  - inversion Hl as [|? ? Hx Hrest]; subst. constructor; [now rewrite <- Hperm | now apply IH].
  - inversion Hl as [|? ? Hy Hrest]; subst. inversion Hrest as [|? ? Hx Hrest']; subst.
    inversion Hy as [|? ? Hyx Hy']; subst.
    constructor; [constructor; [now rewrite eqb_sym | exact Hx]|].
    now constructor.
  - auto.
Qed.

(** Two lists in descending order of a key that no two elements share are
    equal when they hold the same elements. *)
Lemma descending_unique (key : BulkRule -> float) (l1 l2 : list BulkRule) :
  descending key l1 -> descending key l2 -> l1 ≡ₚ l2 ->
  ForallOrdPairs (differentKeys key) l1 -> l1 = l2.
Proof.
  unfold descending. revert l2.
  induction l1 as [|x l1 IH]; intros l2 H1 H2 Hperm Hdiff.
  - now apply Permutation_nil in Hperm.
  - destruct l2 as [|y l2]; [now apply Permutation_sym, Permutation_nil in Hperm|].
    apply StronglySorted_inv in H1 as [H1 Hx]. apply StronglySorted_inv in H2 as [H2 Hy].
    rewrite List.Forall_forall in Hx, Hy.
    inversion Hdiff as [|? ? Hfresh Hdiff']; subst. rewrite List.Forall_forall in Hfresh.
    assert (Exy : x = y).
    { assert (Hyin : In y (x :: l1)).
      { apply (Permutation_in y (Permutation_sym Hperm)). now left. }
      assert (Hxin : In x (y :: l2)).
      { apply (Permutation_in x Hperm). now left. }
      destruct Hyin as [E|Hyin]; [exact E|].
      destruct Hxin as [E|Hxin]; [now symmetry|].
      pose proof (leb_antisym _ _ (Hy x Hxin) (Hx y Hyin)) as Heq.
      specialize (Hfresh y Hyin). cbn in Hfresh. congruence. }
    subst y. f_equal. apply IH; auto. now apply Permutation_cons_inv in Hperm.
Qed.


(** X16: when the [minQty] of the rules are numbers, no two of them equal,
    the price does not depend on the order in which the rules are
    listed. *)
Theorem calculateBulkPrice_any_order (basePrice quantity : float)
    (bulkRules bulkRules' : list BulkRule) :
  bulkRules ≡ₚ bulkRules' ->
  Forall (fun r => is_nan (minQty r) = false) bulkRules ->
  ForallOrdPairs (fun a b => (minQty a =? minQty b)%float = false) bulkRules ->
  calculateBulkPrice basePrice quantity bulkRules
  = calculateBulkPrice basePrice quantity bulkRules'.
Proof.
  intros Hperm Hnumbers Hdiff. unfold calculateBulkPrice.
  assert (E : Array_sort byMinQtyDescending bulkRules = Array_sort byMinQtyDescending bulkRules').
  { apply (descending_unique minQty).
    - now apply Array_sort_descending.
    - apply Array_sort_descending. now rewrite <- Hperm.
    - now rewrite !Array_sort_perm.
    - apply (differentKeys_perm minQty bulkRules); [|exact Hdiff].
      symmetry. apply Array_sort_perm. }
  now rewrite E.
Qed.

Lemma calculateBulkPrice_any_order_witness :
  calculateBulkPrice 100 5
    [ {| minQty := 3; discount := 10 |}; {| minQty := 10; discount := 20 |};
      {| minQty := 5; discount := 15 |} ]
  = calculateBulkPrice 100 5
      [ {| minQty := 5; discount := 15 |}; {| minQty := 3; discount := 10 |};
        {| minQty := 10; discount := 20 |} ].
Proof.
  apply calculateBulkPrice_any_order.
  - etransitivity; [apply perm_skip, perm_swap | apply perm_swap].
  - repeat constructor.
  - repeat constructor.
Defined.

End BulkRules.


(** ** The export: the text is read back as the table *)

Section CsvExport.
Import Orders.

Abbreviation isQuote := (fun c : N => (c =? 34)%N).
Abbreviation isPlain := (fun c : N => c <> 34%N /\ c <> 44%N /\ c <> 10%N).

(** What the reader does at the end of a field that is complete. *)
Abbreviation afterField :=
  (fun (field : list N) (fields : list (list N)) (records : list (list (list N)))
       (rest : list N) =>
     match rest with
     | [] => Some (records ++ [fields ++ [field]])
     | c :: rest' =>
         if (c =? 44)%N then readCsv FieldStart [] (fields ++ [field]) records rest'
         else readCsv FieldStart [] [] (records ++ [fields ++ [field]]) rest'
     end).

Lemma csvField_eq (field : list N) :
  csvField field = 34%N :: replaceEach isQuote [34%N; 34%N] field ++ [34%N].
Proof. unfold csvField. cbn [app]. now destruct (replaceEach _ _ field). Qed.

Lemma readCsv_escaped (x field : list N) (fields : list (list N))
    (records : list (list (list N))) (rest : list N) :
  readCsv InQuotes field fields records (replaceEach isQuote [34%N; 34%N] x ++ 34%N :: rest)
  = readCsv QuoteSeen (field ++ x) fields records rest.
Proof.
  revert field. induction x as [|c x IH]; intros field; cbn [replaceEach app].
  - cbn. now rewrite app_nil_r.
  - destruct (c =? 34)%N eqn:Hc.
    + apply N.eqb_eq in Hc as ->. cbn [app readCsv]. cbn. rewrite IH. now rewrite <- app_assoc.
    + cbn [app readCsv]. rewrite Hc, IH. now rewrite <- app_assoc.
Qed.

Lemma readCsv_field (x : list N) (fields : list (list N)) (records : list (list (list N)))
    (rest : list N) :
  FieldEnd rest ->
  readCsv FieldStart [] fields records (csvField x ++ rest) = afterField x fields records rest.
Proof.
  intros Hrest. rewrite csvField_eq. cbn [app readCsv]. cbn.
  rewrite <- app_assoc. cbn [app]. rewrite readCsv_escaped. cbn [app].
  now destruct Hrest.
Qed.

(** A row of quoted fields, each but the last followed by a comma. *)
Lemma readCsv_row (init : list (list N)) (final : list N) (fields : list (list N))
    (records : list (list (list N))) (rest : list N) :
  FieldEnd rest ->
  readCsv FieldStart [] fields records (csvRow (init ++ [final]) ++ rest)
  = afterField final (fields ++ init) records rest.
Proof.
  intros Hrest. revert fields. induction init as [|x init IH]; intros fields.
  - cbn [app]. unfold csvRow. cbn [List.map join]. rewrite app_nil_r.
    now apply readCsv_field.
  - assert (E : csvRow ((x :: init) ++ [final])
                = csvField x ++ 44%N :: csvRow (init ++ [final])).
    { unfold csvRow. cbn [app List.map].
      destruct (List.map csvField (init ++ [final])) as [|y ys] eqn:Em; [|reflexivity].
      apply map_eq_nil in Em. now destruct init. }
    rewrite E, <- app_assoc. cbn [app].
    rewrite readCsv_field by constructor. cbn.
    rewrite IH. now replace ((fields ++ [x]) ++ init) with (fields ++ x :: init)
      by now rewrite <- app_assoc.
Qed.

Lemma readCsv_plain (w field : list N) (fields : list (list N))
    (records : list (list (list N))) (rest : list N) :
  Forall isPlain w -> FieldEnd rest ->
  readCsv Unquoted field fields records (w ++ rest) = afterField (field ++ w) fields records rest.
Proof.
  intros Hw Hrest. revert field. induction Hw as [|c w (H1 & H2 & H3) _ IH]; intros field.
  - rewrite app_nil_r. cbn [app]. now destruct Hrest.
  - cbn [app readCsv]. apply N.eqb_neq in H1, H2, H3. rewrite H1, H2, H3, IH.
    now rewrite <- app_assoc.
Qed.

Lemma readCsv_plain_field (w : list N) (fields : list (list N))
    (records : list (list (list N))) (rest : list N) :
  Forall isPlain w -> FieldEnd rest ->
  readCsv FieldStart [] fields records (w ++ rest) = afterField w fields records rest.
Proof.
  intros Hw Hrest. destruct Hw as [|c w (H1 & H2 & H3) Hw].
  - cbn [app]. now destruct Hrest.
  - cbn [app readCsv]. apply N.eqb_neq in H1, H2, H3. rewrite H1, H2, H3.
    now apply readCsv_plain.
Qed.

(** A line of plain fields. *)
Lemma readCsv_plain_row (init : list (list N)) (final : list N) (fields : list (list N))
    (records : list (list (list N))) (rest : list N) :
  Forall (Forall isPlain) (init ++ [final]) -> FieldEnd rest ->
  readCsv FieldStart [] fields records (join (js ",") (init ++ [final]) ++ rest)
  = afterField final (fields ++ init) records rest.
Proof.
  intros Hall Hrest. revert fields. induction init as [|x init IH]; intros fields.
  - cbn [app join]. rewrite app_nil_r. apply readCsv_plain_field; [|exact Hrest].
    now inversion Hall.
  - assert (E : join (js ",") ((x :: init) ++ [final])
                = x ++ 44%N :: join (js ",") (init ++ [final])).
    { cbn [app]. now destruct init. }
    rewrite E, <- app_assoc. cbn [app]. inversion Hall as [|? ? Hx Hrest']; subst.
    rewrite readCsv_plain_field by (try exact Hx; constructor). cbn.
    rewrite IH by exact Hrest'. now replace ((fields ++ [x]) ++ init) with (fields ++ x :: init)
      by now rewrite <- app_assoc.
Qed.

Lemma row_init_final (row : list (list N)) :
  row <> [] -> exists init final, row = init ++ [final].
Proof.
  intros Hne. destruct (exists_last Hne) as (init & final & ->). eauto.
Qed.

(** The rows, each on a line of its own. *)
Lemma readCsv_rows (csvData : list (list (list N))) (records : list (list (list N))) :
  csvData <> [] -> Forall (fun row => row <> []) csvData ->
  readCsv FieldStart [] [] records (join [10%N] (List.map csvRow csvData))
  = Some (records ++ csvData).
Proof.
  intros Hne Hall. revert records.
  induction Hall as [|row rows Hrow Hrows IH]; intros records; [congruence|].
  destruct (row_init_final row Hrow) as (init & final & ->).
  destruct rows as [|row' rows].
  - cbn [List.map join].
    rewrite <- (app_nil_r (csvRow (init ++ [final]))), readCsv_row by constructor.
    reflexivity.
  - change (join [10%N] (List.map csvRow ((init ++ [final]) :: row' :: rows)))
      with (csvRow (init ++ [final]) ++ 10%N :: join [10%N] (List.map csvRow (row' :: rows))).
    rewrite readCsv_row by constructor. cbn.
    rewrite IH by discriminate. now rewrite <- app_assoc.
Qed.

(** X17: the text that [exportOrders] writes is read back, by a reader of
    comma-separated values, as the header and the rows, field by field,
    whatever the fields hold (quotes, commas, line feeds), a row having at
    least one field. *)
Theorem csvContent_read_back (csvData : list (list (list N))) :
  Forall (fun row => row <> []) csvData ->
  readCsv FieldStart [] [] [] (csvContent csvData) = Some (csvHeaders :: csvData).
Proof.
  intros Hall. unfold csvContent.
  assert (Hplain : Forall (Forall isPlain) csvHeaders).
  { unfold csvHeaders. repeat constructor; discriminate. }
  destruct (row_init_final csvHeaders) as (init & final & E); [discriminate|].
  rewrite E in *.
  destruct csvData as [|row rows].
  - cbn [List.map join].
    rewrite <- (app_nil_r (join _ (init ++ [final]))), readCsv_plain_row
      by (try exact Hplain; constructor).
    reflexivity.
  - change (join [10%N] (join (js ",") (init ++ [final]) :: List.map csvRow (row :: rows)))
      with (join (js ",") (init ++ [final]) ++ 10%N :: join [10%N] (List.map csvRow (row :: rows))).
    rewrite readCsv_plain_row by (try exact Hplain; constructor).
    cbv beta iota. change (10 =? 44)%N with false. cbv iota.
    rewrite readCsv_rows by (try exact Hall; discriminate).
    cbn [app]. now rewrite <- E.
Qed.

Lemma csvContent_read_back_witness :
  let csvData := [ [ js "ORD-1"; [74; 34; 111; 34; 44; 32; 74; 114]%N; [] ];
                   [ js "ORD-2"; [97; 10; 98]%N; js "x" ] ] in
  readCsv FieldStart [] [] [] (csvContent csvData) = Some (csvHeaders :: csvData).
Proof. cbv zeta. apply csvContent_read_back. repeat constructor; discriminate. Defined.

(** X18: no two rows are written as the same line: [csvRow] is
    injective. *)
Theorem csvRow_injective (row row' : list (list N)) :
  csvRow row = csvRow row' -> row = row'.
Proof.
  assert (Hread : forall r, r <> [] -> readCsv FieldStart [] [] [] (csvRow r) = Some [r] /\ csvRow r <> []).
  { intros r Hr. split.
    - destruct (row_init_final r Hr) as (init & final & ->).
      rewrite <- (app_nil_r (csvRow (init ++ [final]))), readCsv_row by constructor.
      reflexivity.
    - destruct r as [|x [|y ys]]; [congruence|..]; unfold csvRow; cbn [List.map join];
        rewrite csvField_eq; discriminate. }
  intros E. destruct row as [|x row], row' as [|x' row']; [reflexivity | | |].
  - destruct (Hread (x' :: row')) as [_ Hne]; [discriminate|]. now rewrite <- E in Hne.
  - destruct (Hread (x :: row)) as [_ Hne]; [discriminate|]. now rewrite E in Hne.
  - destruct (Hread (x :: row)) as [H1 _]; [discriminate|].
    destruct (Hread (x' :: row')) as [H2 _]; [discriminate|].
    rewrite E, H2 in H1. congruence.
Qed.

Lemma csvRow_injective_witness :
  [ js "a"; [34; 44; 34]%N ] = [ js "a"; [34; 44; 34]%N ].
Proof. apply csvRow_injective. reflexivity. Defined.

End CsvExport.

(** ** The order page: expansion, deletion, counts, addons, amounts *)

Section OrderPage.
Import Orders.

(** X19: [toggleItemExpansion] changes whether the item is expanded and
    nothing else, so that toggling an item twice gives the set back. *)
Theorem toggleItemExpansion_spec (expandedItems : gset (list N)) (itemId : list N) :
  (itemId ∈ toggleItemExpansion expandedItems itemId <-> itemId ∉ expandedItems)
  /\ (forall other, other <> itemId ->
        (other ∈ toggleItemExpansion expandedItems itemId <-> other ∈ expandedItems))
  /\ toggleItemExpansion (toggleItemExpansion expandedItems itemId) itemId = expandedItems.
Proof.
  unfold toggleItemExpansion. cbv zeta.
  destruct (decide (itemId ∈ expandedItems)) as [Hin|Hout].
  - split; [|split].
    + rewrite elem_of_difference, elem_of_singleton. intuition congruence.
    + intros other Hne. rewrite elem_of_difference, elem_of_singleton. intuition congruence.
    + rewrite decide_False
        by (rewrite elem_of_difference, elem_of_singleton; intuition congruence).
      apply set_eq. intros x.
      rewrite elem_of_union, elem_of_difference, !elem_of_singleton.
      destruct (decide (x = itemId)) as [->|]; intuition congruence.
  - split; [|split].
    + rewrite elem_of_union, elem_of_singleton. intuition congruence.
    + intros other Hne. rewrite elem_of_union, elem_of_singleton. intuition congruence.
    + rewrite decide_True by (rewrite elem_of_union, elem_of_singleton; auto).
      apply set_eq. intros x.
      rewrite elem_of_difference, elem_of_union, !elem_of_singleton.
      destruct (decide (x = itemId)) as [->|]; intuition congruence.
Qed.

Lemma filter_length_disjoint {A : Type} (p q : A -> bool) (l : list A) :
  (forall x, p x = true -> q x = false) ->
  (length (List.filter p l) + length (List.filter q l) <= length l)%nat.
Proof.
  intros Hpq. induction l as [|x l IH]; cbn; [lia|].
  destruct (p x) eqn:Hp; [rewrite (Hpq x Hp)|destruct (q x)]; cbn; lia.
Qed.

Context `{Host}.

(** X20: the counts of [getOrderStats] fit together: the pending and the
    completed orders are among the orders counted, and no order is both. *)
Theorem getOrderStats_counts (st : State) :
  totalOrders (getOrderStats st) = length (filteredOrders st)
  /\ (pendingOrders (getOrderStats st) + completedOrders (getOrderStats st)
      <= totalOrders (getOrderStats st))%nat.
Proof.
  split; [reflexivity|]. cbn [getOrderStats pendingOrders completedOrders totalOrders].
  apply filter_length_disjoint. intros order Hp.
  apply bool_decide_eq_true in Hp. apply bool_decide_eq_false. rewrite Hp. discriminate.
Qed.

Lemma passesFilters_setOrders (st : State) (l : list Order) (order : Order) :
  passesFilters (setOrders st l) order = passesFilters st order.
Proof. reflexivity. Qed.

(** X21: after a deletion that the server confirms, the list shown is the
    list that was shown without the orders of that id, in the same order:
    filtering again only removes them. *)
Theorem handleDelete_then_filterOrders (st : State) (id' : list N) :
  let st' := fst (handleDelete true (Resolves true) st id') in
  filteredOrders (filterOrders st')
  = List.filter (fun order => negb (bool_decide (id order = id')))
      (filteredOrders (filterOrders st)).
Proof.
  cbv zeta. rewrite !filterOrders_filter. cbn [handleDelete fst orders setOrders].
  rewrite !filter_filter. apply List.filter_ext. intros order.
  rewrite passesFilters_setOrders. apply andb_comm.
Qed.

Lemma startsWith_refl (s : list N) : startsWith s s = true.
Proof. induction s as [|c s IH]; cbn; [reflexivity|]. now rewrite N.eqb_refl. Qed.

Lemma includes_refl (s : list N) : includes s s = true.
Proof. destruct s; cbn; [reflexivity|]. now rewrite N.eqb_refl, startsWith_refl. Qed.

(** X22: typing the number of an order finds it: with the other filters
    off, an order whose number is the search term is in the list shown. *)
Theorem filterOrders_finds_orderNumber (st : State) (order : Order) :
  In order (orders st) -> searchTerm st = orderNumber order ->
  statusFilter st = js "all" -> paymentFilter st = js "all" ->
  startDate st = [] -> endDate st = [] ->
  In order (filteredOrders (filterOrders st)).
Proof.
  intros Hin Hs Hst Hp Hsd Hed. rewrite filterOrders_filter.
  apply List.filter_In. split; [exact Hin|].
  unfold passesFilters, matchesSearch. rewrite Hs, Hst, Hp, Hsd, Hed, includes_refl. cbn.
  now rewrite orb_true_r.
Qed.

End OrderPage.

Lemma filterOrders_finds_orderNumber_witness :
  let order := Orders.sampleOrder (js "7") (js "pending") JsNull in
  let st :=
    {| Orders.orders := [Orders.sampleOrder (js "3") (js "paid") JsNull; order];
       Orders.filteredOrders := []; Orders.addons := [];
       Orders.searchTerm := js "ORD-7"; Orders.statusFilter := js "all";
       Orders.paymentFilter := js "all"; Orders.startDate := []; Orders.endDate := [] |} in
  In order (Orders.filteredOrders (@Orders.filterOrders sampleHost st)).
Proof.
  cbv zeta. apply (@filterOrders_finds_orderNumber sampleHost); try reflexivity.
  right. left. reflexivity.
Defined.


(** ** Amounts and addons on the pages *)

Section Amounts.

Lemma isFinite_cases (x : float) :
  isFinite x = negb (is_nan x) && negb (is_infinity x).
Proof.
  unfold isFinite. rewrite is_nan_spec, is_infinity_spec.
  now destruct (Prim2SF x) as [[]|[]| |[] ? ?].
Qed.

Lemma toFixed_NaN (x : float) (f : nat) : is_nan x = true -> toFixed x f = js "NaN".
Proof.
  rewrite is_nan_spec. unfold toFixed, Number_toString.
  now destruct (Prim2SF x) as [[]|[]| |[] ? ?].
Qed.

(** X23: [formatCurrency] never shows [NaN]: for [undefined], [null] and
    whatever [Number] makes [NaN] of it shows [0.00]; and for every amount
    that is not infinite and is below [10^21] in magnitude it shows an
    optional [-], digits, a point and two digits. *)
Theorem formatCurrency_two_decimals (amount : JsValue) :
  (is_nan (ToNumber amount) = true -> Orders.formatCurrency amount = js "0.00")
  /\ (is_infinity (ToNumber amount) = false ->
      (magnitude (ToNumber amount) < (10 # 1) ^ 21)%Q ->
      exists sign whole cents : list N,
        Orders.formatCurrency amount = sign ++ whole ++ js "." ++ cents
        /\ (sign = [] \/ sign = js "-")
        /\ whole <> []
        /\ Forall (fun c => isDigit c = true) whole
        /\ length cents = 2%nat
        /\ Forall (fun c => isDigit c = true) cents).
Proof.
  unfold Orders.formatCurrency. cbv zeta. split.
  - now intros ->.
  - intros Hinf Hmag.
    destruct (is_nan (ToNumber amount) || strictEquals amount JsNull
              || strictEquals amount JsUndefined) eqn:Hguard.
    + exists [], (js "0"), (js "00"). repeat split; auto; try discriminate; repeat constructor.
    + apply orb_false_elim in Hguard as [[Hn _]%orb_false_elim _].
      assert (Hfin : isFinite (ToNumber amount) = true)
        by now rewrite isFinite_cases, Hn, Hinf.
      destruct (toFixed_two_shape _ Hfin Hmag) as (whole & cents & Heq & H1 & H2 & H3 & H4 & _).
      exists (if (ToNumber amount <? 0)%float then js "-" else []), whole, cents.
      repeat split; auto. destruct (ToNumber amount <? 0)%float; auto.
Qed.

Lemma formatCurrency_two_decimals_witness :
  Orders.formatCurrency (JsString (js "abc")) = js "0.00"
  /\ exists sign whole cents : list N,
       Orders.formatCurrency (JsString (js "-12.5")) = sign ++ whole ++ js "." ++ cents
       /\ (sign = [] \/ sign = js "-")
       /\ whole <> []
       /\ Forall (fun c => isDigit c = true) whole
       /\ length cents = 2%nat
       /\ Forall (fun c => isDigit c = true) cents.
Proof.
  split.
  - apply (proj1 (formatCurrency_two_decimals (JsString (js "abc")))). reflexivity.
  - apply (proj2 (formatCurrency_two_decimals (JsString (js "-12.5")))); reflexivity.
Defined.

(** X24: the price cell of the product list reads [From addons] exactly
    for a product of type [group] whose price parses to zero; a price that
    does not parse is shown as [NaN]; and any other finite price below
    [10^21], as an optional [-], digits, a point and two digits. *)
Theorem Products_formatPrice_cases (price productType : JsValue) :
  (Products.formatPrice price productType = Products.Text (js "From addons")
   <-> productType = JsString (js "group") /\ (parseFloat price =? 0)%float = true)
  /\ (is_nan (parseFloat price) = true ->
      Products.formatPrice price productType = Products.Amount (js "NaN"))
  /\ (isFinite (parseFloat price) = true ->
      (magnitude (parseFloat price) < (10 # 1) ^ 21)%Q ->
      Products.formatPrice price productType = Products.Text (js "From addons")
      \/ exists sign whole cents : list N,
           Products.formatPrice price productType
           = Products.Amount (sign ++ whole ++ js "." ++ cents)
           /\ (sign = [] \/ sign = js "-")
           /\ whole <> []
           /\ Forall (fun c => isDigit c = true) whole
           /\ length cents = 2%nat
           /\ Forall (fun c => isDigit c = true) cents).
Proof.
  unfold Products.formatPrice. cbv zeta.
  assert (Hgroup : strictEquals productType (JsString (js "group")) = true
                   <-> productType = JsString (js "group")).
  { destruct productType as [| |b|x|s]; cbn; try (split; [discriminate | congruence]).
    rewrite bool_decide_eq_true. split; congruence. }
  split; [|split].
  - destruct (strictEquals productType _ && _) eqn:E.
    + apply andb_prop in E as [Hg Hz]. apply Hgroup in Hg. tauto.
    + split; [discriminate|]. intros [Hg%Hgroup Hz]. now rewrite Hg, Hz in E.
  - intros Hn.
    assert (Hz : (parseFloat price =? 0)%float = false).
    { rewrite is_nan_spec in Hn. rewrite FloatAxioms.eqb_spec.
      now destruct (Prim2SF (parseFloat price)). }
    now rewrite Hz, andb_false_r, toFixed_NaN.
  - intros Hfin Hmag. destruct (strictEquals productType _ && _); [now left|]. right.
    destruct (toFixed_two_shape _ Hfin Hmag) as (whole & cents & Heq & H1 & H2 & H3 & H4 & _).
    exists (if (parseFloat price <? 0)%float then js "-" else []), whole, cents.
    rewrite Heq. repeat split; auto. destruct (parseFloat price <? 0)%float; auto.
Qed.

Lemma Products_formatPrice_cases_witness :
  Products.formatPrice JsUndefined (JsString (js "group")) = Products.Amount (js "NaN")
  /\ (Products.formatPrice (JsString (js "19.999")) (JsString (js "simple"))
         = Products.Text (js "From addons")
       \/ exists sign whole cents : list N,
            Products.formatPrice (JsString (js "19.999")) (JsString (js "simple"))
            = Products.Amount (sign ++ whole ++ js "." ++ cents)
            /\ (sign = [] \/ sign = js "-")
            /\ whole <> []
            /\ Forall (fun c => isDigit c = true) whole
            /\ length cents = 2%nat
            /\ Forall (fun c => isDigit c = true) cents).
Proof.
  split.
  - apply (proj1 (proj2 (Products_formatPrice_cases JsUndefined (JsString (js "group"))))).
    reflexivity.
  - apply (proj2 (proj2 (Products_formatPrice_cases (JsString (js "19.999"))
                           (JsString (js "simple"))))); reflexivity.
Defined.

End Amounts.

Section AddonTexts.
Import Orders.

(** X25: in the export every addon without a title of its own is written
    [Addon 1], as the title is asked for at index [0] for each of them:
    with no catalog, the addons of an item that have no [addonTitle],
    [title] or [name] are all written so. *)
Theorem addonsText_untitled (st : State) (itemAddons : list Addon) :
  addons st = [] -> itemAddons <> [] ->
  Forall (fun addon => truthy (addonTitle addon) = false /\ truthy (title addon) = false
                       /\ truthy (name addon) = false) itemAddons ->
  addonsText st (Some itemAddons)
  = js " (Addons: " ++ join (js ", ") (List.repeat (js "Addon 1") (length itemAddons)) ++ js ")".
Proof.
  intros Hcatalog Hne Hall. unfold addonsText.
  destruct itemAddons as [|a l] eqn:E; [congruence|]. rewrite <- E in *. clear E Hne.
  do 2 f_equal. f_equal.
  induction Hall as [|addon rest (H1 & H2 & H3) _ IH]; [reflexivity|].
  cbn [List.map length List.repeat]. rewrite IH. f_equal.
  unfold getAddonTitle. rewrite H1, H2, H3, Hcatalog, andb_false_r. reflexivity.
Qed.

Lemma addonsText_untitled_witness :
  let untitled := {| addonId := JsString (js "a1"); addonTitle := JsUndefined;
                     title := JsNull; name := JsString [] |} in
  addonsText (sampleState [] [] (js "all")) (Some [untitled; untitled])
  = js " (Addons: " ++ join (js ", ") (List.repeat (js "Addon 1") 2) ++ js ")".
Proof.
  cbv zeta. apply (addonsText_untitled (sampleState [] [] (js "all"))); try reflexivity;
    [discriminate | repeat constructor].
Defined.

Section Parsing.
Variable JSON_parse : list N -> option Value.

(** X26: [parseAddons] logs an error exactly when it is given a string,
    not empty, that [JSON.parse] rejects, and then returns no addon; what is
    neither an array nor a string gives one addon at most. *)
Theorem parseAddons_errors (addonsData : Value) :
  (snd (parseAddons JSON_parse addonsData) <> []
   <-> exists text, addonsData = Primitive (JsString text) /\ text <> []
                    /\ JSON_parse text = None)
  /\ (snd (parseAddons JSON_parse addonsData) <> [] -> fst (parseAddons JSON_parse addonsData) = [])
  /\ (match addonsData with
      | ArrayOf _ | Primitive (JsString _) => True
      | _ => (length (fst (parseAddons JSON_parse addonsData)) <= 1)%nat
      end).
Proof.
  assert (Hquiet : forall (d : Value) (result : list Value),
             (forall text, d <> Primitive (JsString text)) ->
             (@nil Effect <> []
              <-> exists text, d = Primitive (JsString text) /\ text <> []
                               /\ JSON_parse text = None)
             /\ (@nil Effect <> [] -> result = [])).
  { intros d result Hd. split; [split|]; [congruence | | congruence].
    intros (text & E & _). now apply Hd in E. }
  assert (Hsplit : forall A B C : Prop, A /\ B -> C -> A /\ B /\ C) by tauto.
  unfold parseAddons.
  destruct addonsData as [[| |b|x|text]|elements|properties]; cbn [truthyValue truthy negb].
  - cbn. apply Hsplit; [apply (Hquiet _ []); discriminate | lia].
  - cbn. apply Hsplit; [apply (Hquiet _ []); discriminate | lia].
  - destruct b; cbn; (apply Hsplit; [apply (Hquiet _ []); discriminate | lia]).
  - destruct (truthyNumber x); cbn; (apply Hsplit; [apply (Hquiet _ []); discriminate | lia]).
  - destruct text as [|c text]; cbn [negb fst snd].
    { apply Hsplit; [|exact I]. split; [split; [congruence|] | congruence].
      intros (t & [= <-] & Hne & _). congruence. }
    destruct (JSON_parse (c :: text)) as [[v|l|o]|] eqn:Ep; cbn [fst snd].
    1-3: apply Hsplit; [|exact I]; split; [split; [congruence|] | congruence];
         intros (t & [= <-] & _ & Hp); congruence.
    apply Hsplit; [|exact I]. split; [split | reflexivity].
    + intros _. exists (c :: text). repeat split; [discriminate | exact Ep].
    + discriminate.
  - cbn. apply Hsplit; [apply (Hquiet _ elements); discriminate | exact I].
  - cbn. apply Hsplit; [apply (Hquiet _ [ObjectOf properties]); discriminate | lia].
Qed.

End Parsing.

End AddonTexts.


(** ** The revenue is a number *)

Section Sums.

Lemma shr_1_nonneg (mrs : shr_record) : (0 <= shr_m mrs)%Z -> (0 <= shr_m (shr_1 mrs))%Z.
Proof. destruct mrs as [[|[p|p|]|p] r s]; cbn; lia. Qed.

Lemma iter_shr_1_nonneg (n : positive) (mrs : shr_record) :
  (0 <= shr_m mrs)%Z -> (0 <= shr_m (SpecFloat.iter_pos shr_1 n mrs))%Z.
Proof.
  revert mrs. induction n as [n IH|n IH|]; intros mrs Hm; cbn.
  - now apply IH, IH, shr_1_nonneg.
  - now apply IH, IH.
  - now apply shr_1_nonneg.
Qed.

Lemma shr_fexp_nonneg (m e : Z) (l : location) :
  (0 <= m)%Z -> (0 <= shr_m (fst (shr_fexp prec emax m e l)))%Z.
Proof.
  intros Hm. unfold shr_fexp, shr.
  assert (H0 : (0 <= shr_m (shr_record_of_loc m l))%Z) by now destruct l as [|[]].
  destruct (_ - e)%Z; cbn [fst]; [exact H0 | now apply iter_shr_1_nonneg | exact H0].
Qed.

Lemma round_nearest_even_nonneg (m : Z) (l : location) :
  (0 <= m)%Z -> (0 <= round_nearest_even m l)%Z.
Proof. intros Hm. destruct l as [|[]]; cbn; [lia | destruct (Z.even m); lia | lia | lia]. Qed.

Lemma binary_round_aux_not_nan (sx : bool) (m e : Z) (l : location) :
  (0 <= m)%Z -> binary_round_aux prec emax sx m e l <> S754_nan.
Proof.
  intros Hm. unfold binary_round_aux.
  pose proof (shr_fexp_nonneg m e l Hm) as H1.
  destruct (shr_fexp prec emax m e l) as [mrs' e']. cbn [fst] in H1.
  pose proof (shr_fexp_nonneg _ e' loc_Exact
                (round_nearest_even_nonneg _ (loc_of_shr_record mrs') H1)) as H2.
  destruct (shr_fexp prec emax _ e' loc_Exact) as [mrs'' e'']. cbn [fst] in H2.
  destruct (shr_m mrs''); [discriminate | destruct (_ <=? _)%Z; discriminate | lia].
Qed.

Lemma binary_normalize_not_nan (m e : Z) (szero : bool) :
  binary_normalize prec emax m e szero <> S754_nan.
Proof.
  unfold binary_normalize, binary_round.
  destruct m as [|p|p]; [discriminate|..];
    destruct (shl_align _ _ _) as [mz ez]; now apply binary_round_aux_not_nan.
Qed.

(** Adding a finite number to a number gives a number. *)
Lemma add_finite_not_nan (x y : float) :
  is_nan x = false -> isFinite y = true -> is_nan (x + y)%float = false.
Proof.
  unfold isFinite. rewrite !is_nan_spec, add_spec. unfold SF64add, SFadd.
  destruct (Prim2SF x) as [[]|[]| |sx mx ex], (Prim2SF y) as [[]|[]| |sy my ey];
    try discriminate; try reflexivity; intros _ _.
  all: pose proof (binary_normalize_not_nan
         (cond_Zopp sx (Z.pos (fst (shl_align mx ex (Z.min ex ey))))
          + cond_Zopp sy (Z.pos (fst (shl_align my ey (Z.min ex ey))))) (Z.min ex ey) false) as Hn;
       now destruct (binary_normalize _ _ _ _ _).
Qed.

End Sums.

Section Revenue.
Import Orders.
Context `{Host}.

(** X27: the amount an order adds to the revenue is never [NaN], and the
    revenue of orders whose amounts are finite is never [NaN] (it may be
    infinite). *)
Theorem totalRevenue_not_NaN (st : State) :
  Forall (fun order => is_nan (orderAmount order) = false) (filteredOrders st)
  /\ (Forall (fun order => isFinite (orderAmount order) = true) (filteredOrders st) ->
      is_nan (totalRevenue (getOrderStats st)) = false).
Proof.
  split.
  - apply List.Forall_forall. intros order _. unfold orderAmount. cbv zeta.
    destruct (truthyNumber _) eqn:Ht; [now apply truthyNumber_not_nan | reflexivity].
  - intros Hall. cbn [getOrderStats totalRevenue]. cbv zeta.
    assert (H0 : is_nan 0%float = false) by reflexivity.
    revert H0. generalize 0%float.
    induction Hall as [|order l Ho _ IH]; intros sum Hsum; [exact Hsum|].
    cbn [fold_left]. apply IH. now apply add_finite_not_nan.
Qed.

End Revenue.

Lemma totalRevenue_not_NaN_witness :
  let st := Orders.sampleState
              [ Orders.sampleOrder (js "1") (js "pending") (JsString (js "10.50"));
                Orders.sampleOrder (js "2") (js "completed") (JsString (js "abc")) ]
              [] (js "all") in
  is_nan (Orders.totalRevenue (Orders.getOrderStats st)) = false.
Proof.
  cbv zeta. apply (proj2 (totalRevenue_not_NaN _)). repeat constructor.
Defined.
